(** * Moondream 3 interrogation handler: dispatch and response normalisation

    A shallow embedding of [modules/interrogate/moondream3.py]: settings
    merge, image-encoding cache, the four capability invokers with their
    response normalisers, and the mode dispatcher [predict].

    Conventions of the embedding.
    - Python floats are IEEE binary64 values ([PrimFloat.float]); the
      built-ins [min] and [max] are written with the comparison they perform.
    - Python [str] is [string], one character per code point; the code
      points are those below 256, and case mapping, whitespace and word
      classes are the ones Python gives them ([str.lower], [str.strip],
      [\s], [\w] and [re.IGNORECASE] on [str]).
    - Module globals ([moondream3_model], [loaded], [image_cache]) live in a
      [state] record threaded through a state-and-exception monad.
    - The model, the device layer and the error reporter are external: every
      interaction is appended to a history, and the outcome of a call is
      given by an environment that sees the history so far.
    - Trace logging ([debug], [shared.log.debug]) has no effect on results
      and is not represented. *)

From Stdlib Require Import ZArith NArith List String Ascii Bool Lia Floats.
From stdpp Require Import base option list strings gmap pretty.

#[local] Set Warnings "-register-all,-inexact-float".

Local Open Scope string_scope.
Local Open Scope Z_scope.

(** ** Characters and strings *)

Module Text.

Definition code (c : ascii) : N := N_of_ascii c.

Definition in_range (lo hi : N) (c : ascii) : bool :=
  ((lo <=? code c) && (code c <=? hi))%N.

Definition has_code (n : N) (c : ascii) : bool := (code c =? n)%N.

(** The characters [str.lower()] changes: A-Z, and the capital letters
    U+00C0-U+00DE but for the multiplication sign U+00D7. *)
Definition is_upper (c : ascii) : bool :=
  in_range 65 90 c || in_range 192 214 c || in_range 216 222 c.

(** Letters: A-Z, a-z, the ordinal indicators U+00AA and U+00BA, the micro
    sign U+00B5, and U+00C0-U+00FF but for the multiplication and division
    signs U+00D7 and U+00F7. *)
Definition is_alpha (c : ascii) : bool :=
  in_range 65 90 c || in_range 97 122 c || has_code 170 c || has_code 181 c || has_code 186 c
  || in_range 192 214 c || in_range 216 246 c || in_range 248 255 c.

(** Digits and numeric characters: 0-9, the superscripts U+00B2, U+00B3 and
    U+00B9, and the fractions U+00BC-U+00BE. *)
Definition is_digit (c : ascii) : bool :=
  in_range 48 57 c || in_range 178 179 c || has_code 185 c || in_range 188 190 c.

(** [\w] of [re] on [str]: alphanumeric characters and the underscore. *)
Definition is_word (c : ascii) : bool :=
  is_alpha c || is_digit c || has_code 95 c.

(** Whitespace of [str.strip()] and of [\s] on [str]: tab to carriage
    return, the separators U+001C-U+001F, the space, next line U+0085 and
    the no-break space U+00A0. *)
Definition is_space (c : ascii) : bool :=
  in_range 9 13 c || in_range 28 32 c || has_code 133 c || has_code 160 c.

(** [str.lower()] on one character: the small letter is 32 further. *)
Definition lower_char (c : ascii) : ascii :=
  if is_upper c then ascii_of_N (code c + 32) else c.

(** [s.lower()] *)
Fixpoint lower (s : string) : string :=
  match s with
  | EmptyString => EmptyString
  | String c s' => String (lower_char c) (lower s')
  end.

(** [s.replace(old, new)] for a one-character [old]. *)
Fixpoint replace_char (old : ascii) (new : string) (s : string) : string :=
  match s with
  | EmptyString => EmptyString
  | String c s' =>
      if Ascii.eqb c old then new ++ replace_char old new s'
      else String c (replace_char old new s')
  end.

Fixpoint starts_with (p s : string) : bool :=
  match p, s with
  | EmptyString, _ => true
  | String a p', String b s' => Ascii.eqb a b && starts_with p' s'
  | String _ _, EmptyString => false
  end.

(** [sub in s] for strings. *)
Fixpoint contains (sub s : string) : bool :=
  starts_with sub s ||
  match s with
  | EmptyString => false
  | String _ s' => contains sub s'
  end.

Fixpoint drop (n : nat) (s : string) : string :=
  match n, s with
  | O, _ => s
  | S n', String _ s' => drop n' s'
  | S _, EmptyString => EmptyString
  end.

Fixpoint lstrip (s : string) : string :=
  match s with
  | String c s' => if is_space c then lstrip s' else s
  | EmptyString => EmptyString
  end.

Fixpoint rstrip (s : string) : string :=
  match s with
  | EmptyString => EmptyString
  | String c s' =>
      match rstrip s' with
      | EmptyString => if is_space c then EmptyString else String c EmptyString
      | r => String c r
      end
  end.

(** [s.strip()] *)
Definition strip (s : string) : string := rstrip (lstrip s).

Definition head (s : string) : option ascii :=
  match s with String c _ => Some c | EmptyString => None end.

Definition nth_char (n : nat) (s : string) : option ascii := head (drop n s).

(** *** The regular expressions of the dispatcher *)

(** Prefix match of a literal under [re.IGNORECASE]. *)
Fixpoint starts_with_ci (p s : string) : bool :=
  match p, s with
  | EmptyString, _ => true
  | String a p', String b s' =>
      Ascii.eqb (lower_char a) (lower_char b) && starts_with_ci p' s'
  | String _ _, EmptyString => false
  end.

Definition opt_word (c : option ascii) : bool :=
  match c with Some c => is_word c | None => false end.

(** [\b] between the characters [prev] and [next] ([None] at either end of
    the string). *)
Definition word_boundary (prev next : option ascii) : bool :=
  xorb (opt_word prev) (opt_word next).

(** Does [\b<phrase>\b] match at the start of [s], [prev] being the character
    before it? *)
Definition phrase_at (phrase : string) (prev : option ascii) (s : string) : bool :=
  let n := String.length phrase in
  negb (String.eqb phrase "") &&
  word_boundary prev (head s) &&
  starts_with_ci phrase s &&
  word_boundary (nth_char (n - 1) s) (nth_char n s).

(** The scan of [re.sub]: [skip] counts the characters of the current match
    that remain to be consumed; a match is replaced by the empty string and
    the search resumes right after it. *)
Fixpoint sub_phrase_scan (phrase : string) (prev : option ascii) (skip : nat)
    (s : string) : string :=
  match s with
  | EmptyString => EmptyString
  | String c s' =>
      match skip with
      | S k => sub_phrase_scan phrase (Some c) k s'
      | O =>
          if phrase_at phrase prev s
          then sub_phrase_scan phrase (Some c) (String.length phrase - 1) s'
          else String c (sub_phrase_scan phrase (Some c) 0 s')
      end
  end.

(** [re.sub(rf'\b{phrase}\b', '', s, flags=re.IGNORECASE)] for a phrase of
    letters and spaces. *)
Definition sub_phrase (phrase s : string) : string :=
  sub_phrase_scan phrase None 0 s.

Definition is_punct (c : ascii) : bool :=
  Ascii.eqb c "?" || Ascii.eqb c "." || Ascii.eqb c "!" || Ascii.eqb c ",".

(** [re.sub(r'[?.!,]', '', s)] *)
Fixpoint sub_punct (s : string) : string :=
  match s with
  | EmptyString => EmptyString
  | String c s' => if is_punct c then sub_punct s' else String c (sub_punct s')
  end.

(** [re.sub(r'^\s*the\s+', '', s, flags=re.IGNORECASE)] *)
Definition sub_leading_the (s : string) : string :=
  let s1 := lstrip s in
  if starts_with_ci "the" s1 then
    match drop 3 s1 with
    | String c r => if is_space c then lstrip r else s
    | EmptyString => s
    end
  else s.

Definition opt_space (c : option ascii) : bool :=
  match c with Some c => is_space c | None => false end.

(** Does [\s+and\s+] (ignoring case) match at the start of [s]?  The first
    [\s+] has to take the whole run of whitespace, since [a] is not
    whitespace. *)
Definition ws_and_ws_at (s : string) : bool :=
  match s with
  | String c r =>
      is_space c &&
      (let t := lstrip r in
       starts_with_ci "and" t && opt_space (nth_char 3 t))
  | EmptyString => false
  end.

(** [re.split(r'\s+and\s+', s, flags=re.IGNORECASE)[0]]: the text before the
    leftmost match, the whole string when there is none. *)
Fixpoint split_and_first (s : string) : string :=
  if ws_and_ws_at s then EmptyString
  else match s with
       | EmptyString => EmptyString
       | String c s' => String c (split_and_first s')
       end.

End Text.

(** ** Floating point: clamping and fixed-point formatting *)

Module Num.

Local Open Scope float_scope.

(** [min(1.0, x)]: the built-in keeps its first argument unless a later one
    compares strictly smaller. *)
Definition min_1 (x : float) : float := if x <? 1.0 then x else 1.0.

(** [max(0.0, x)]: the built-in keeps its first argument unless a later one
    compares strictly greater. *)
Definition max_0 (x : float) : float := if 0.0 <? x then x else 0.0.

(** [max(0.0, min(1.0, x))] *)
Definition clamp (x : float) : float := max_0 (min_1 x).

Definition in_unit (x : float) : bool := (0.0 <=? x) && (x <=? 1.0).

(** *** [format(x, '.<d>f')] *)

Local Open Scope Z_scope.

(** [num / den] rounded to the nearest integer, ties to even ([den > 0]). *)
Definition round_half_even (num den : Z) : Z :=
  let q := num / den in
  match 2 * (num mod den) ?= den with
  | Lt => q
  | Gt => q + 1
  | Eq => if Z.even q then q else q + 1
  end.

(** The integer nearest to [m * 2^e * 10^d]. *)
Definition scaled (d : nat) (m : positive) (e : Z) : Z :=
  let p := 10 ^ Z.of_nat d in
  if 0 <=? e then Z.pos m * 2 ^ e * p
  else round_half_even (Z.pos m * p) (2 ^ (- e)).

Fixpoint zeros (n : nat) : string :=
  match n with O => EmptyString | S n' => String "0" (zeros n') end.

Definition pad_zeros (width : nat) (s : string) : string :=
  (zeros (width - String.length s) ++ s)%string.

Definition fixed_digits (d : nat) (n : Z) : string :=
  let p := 10 ^ Z.of_nat d in
  let int_part := pretty (Z.to_N (n / p)) in
  match d with
  | O => int_part
  | _ => (int_part ++ "." ++ pad_zeros d (pretty (Z.to_N (n mod p))))%string
  end.

Definition sign_text (s : bool) : string := if s then "-" else "".

Definition format_fixed (d : nat) (x : float) : string :=
  match Prim2SF x with
  | S754_nan => "nan"
  | S754_infinity s => (sign_text s ++ "inf")%string
  | S754_zero s => (sign_text s ++ fixed_digits d 0)%string
  | S754_finite s m e => (sign_text s ++ fixed_digits d (scaled d m e))%string
  end.

End Num.

(** ** Python values, exceptions and the built-ins the module uses *)

Module Py.

(** The values a raw model response is made of.  [PObject] stands for any
    other object (a generator, a tensor): it is true, and has no length,
    items, members or float value. *)
Inductive pyval : Type :=
  | PNone
  | PBool (b : bool)
  | PInt (n : Z)
  | PFloat (f : float)
  | PStr (s : string)
  | PList (l : list pyval)
  | PTuple (l : list pyval)
  | PDict (d : list (string * pyval))
  | PObject (id : N).

(** An instance of [Exception]: its class and [str(e)].  The texts of the
    interpreter's own errors follow CPython 3.12. *)
Record exn : Type := Exn { exn_class : string; exn_msg : string }.

Inductive result (A : Type) : Type :=
  | Ok (a : A)
  | Raise (e : exn).
Arguments Ok {A} a.
Arguments Raise {A} e.

Definition TypeError {A} (msg : string) : result A := Raise (Exn "TypeError" msg).
Definition ValueError {A} (msg : string) : result A := Raise (Exn "ValueError" msg).
Definition OverflowError {A} (msg : string) : result A := Raise (Exn "OverflowError" msg).
Definition AttributeError {A} (msg : string) : result A := Raise (Exn "AttributeError" msg).

Definition rbind {A B} (r : result A) (k : A -> result B) : result B :=
  match r with
  | Ok a => k a
  | Raise e => Raise e
  end.

Definition type_name (v : pyval) : string :=
  match v with
  | PNone => "NoneType"
  | PBool _ => "bool"
  | PInt _ => "int"
  | PFloat _ => "float"
  | PStr _ => "str"
  | PList _ => "list"
  | PTuple _ => "tuple"
  | PDict _ => "dict"
  | PObject _ => "object"
  end.

(** [d[key]] / [key in d] on the items of a dict. *)
Fixpoint dict_get (key : string) (d : list (string * pyval)) : option pyval :=
  match d with
  | [] => None
  | (k, v) :: d' => if String.eqb k key then Some v else dict_get key d'
  end.

Definition dict_has (key : string) (d : list (string * pyval)) : bool :=
  match dict_get key d with Some _ => true | None => false end.

Definition is_str (key : string) (v : pyval) : bool :=
  match v with PStr s => String.eqb s key | _ => false end.

Fixpoint chars (s : string) : list pyval :=
  match s with
  | EmptyString => []
  | String c s' => PStr (String c EmptyString) :: chars s'
  end.

(** [bool(v)] *)
Definition truthy (v : pyval) : bool :=
  match v with
  | PNone => false
  | PBool b => b
  | PInt n => negb (n =? 0)
  | PFloat f => negb (PrimFloat.eqb f 0%float)
  | PStr s => negb (String.eqb s "")
  | PList l | PTuple l => match l with [] => false | _ => true end
  | PDict d => match d with [] => false | _ => true end
  | PObject _ => true
  end.

(** [len(v)] *)
Definition len (v : pyval) : result nat :=
  match v with
  | PStr s => Ok (String.length s)
  | PList l | PTuple l => Ok (length l)
  | PDict d => Ok (length d)
  | _ => TypeError ("object of type '" ++ type_name v ++ "' has no len()")
  end.

(** The items [for x in v] goes through. *)
Definition iter (v : pyval) : result (list pyval) :=
  match v with
  | PStr s => Ok (chars s)
  | PList l | PTuple l => Ok l
  | PDict d => Ok (map (fun kv => PStr (fst kv)) d)
  | _ => TypeError ("'" ++ type_name v ++ "' object is not iterable")
  end.

(** [key in v] for a string [key]. *)
Definition contains (key : string) (v : pyval) : result bool :=
  match v with
  | PDict d => Ok (dict_has key d)
  | PList l | PTuple l => Ok (existsb (is_str key) l)
  | PStr s => Ok (Text.contains key s)
  | _ => TypeError ("argument of type '" ++ type_name v ++ "' is not iterable")
  end.

(** [v[key]] for a string [key]. *)
Definition getitem (key : string) (v : pyval) : result pyval :=
  match v with
  | PDict d =>
      match dict_get key d with
      | Some x => Ok x
      | None => Raise (Exn "KeyError" ("'" ++ key ++ "'"))
      end
  | PList _ => TypeError "list indices must be integers or slices, not str"
  | PTuple _ => TypeError "tuple indices must be integers or slices, not str"
  | PStr _ => TypeError "string indices must be integers, not 'str'"
  | _ => TypeError ("'" ++ type_name v ++ "' object is not subscriptable")
  end.

(** [float(n)] for an int: the nearest binary64 value, ties to even, or
    [OverflowError] when that is out of range. *)
Definition float_of_int (n : Z) : result float :=
  match binary_normalize prec emax n 0 false with
  | S754_infinity _ => OverflowError "int too large to convert to float"
  | sf => Ok (SF2Prim sf)
  end.

Section Float.

(** [float(s)] for a string: the interpreter's grammar and rounding, [None]
    where it raises [ValueError]. *)
Variable float_of_str : string -> option float.

(** [float(v)] *)
Definition to_float (v : pyval) : result float :=
  match v with
  | PFloat f => Ok f
  | PInt n => float_of_int n
  | PBool b => Ok (if b then 1.0 else 0.0)%float
  | PStr s =>
      match float_of_str s with
      | Some f => Ok f
      | None => ValueError ("could not convert string to float: '" ++ s ++ "'")
      end
  | _ =>
      TypeError ("float() argument must be a string or a real number, not '"
                 ++ type_name v ++ "'")
  end.

End Float.

End Py.

Import Text Num Py.

(** ** External collaborators, module globals and the monad *)

(** A PIL image: only its identity ([id(image)]) is observed here. *)
Record image : Type := Image { image_id : N }.

(** The loaded model object and an encoded-image tensor, both opaque. *)
Definition model : Type := N.
Definition handle : Type := N.

(** What [model.query] receives as [image]: the image or its encoding. *)
Inductive image_input : Type :=
  | RawImage (img : image)
  | Encoded (h : handle).

(** Device and model housekeeping done around a (re)load. *)
Inductive setup_op : Type :=
  | ModelEval (m : model)
  | ModelCompile (m : model)
  | TorchGC
  | MoveModel (m : model).

(** One interaction with a collaborator. *)
Inductive event : Type :=
  | EvFromPretrained (repo : option string)
  | EvSetup (op : setup_op)
  | EvEncodeImage (m : model) (img : image)
  | EvQuery (m : model) (input : image_input) (question : string)
      (stream : bool) (settings : option (gmap string pyval))
  | EvCaption (m : model) (img : image) (length : string)
      (stream : bool) (settings : option (gmap string pyval))
  | EvPoint (m : model) (img : image) (object_name : string)
  | EvDetect (m : model) (img : image) (object_name : string)
      (settings : option (gmap string pyval))
  | EvDisplay (e : exn) (label : string).

(** [shared.opts], read only. *)
Record options : Type := Options {
  interrogate_vlm_max_length : Z;
  interrogate_vlm_temperature : float;
  interrogate_vlm_top_p : float;
  cuda_compile : list string
}.

(** The environment: configuration, [float] on strings, and the outcome of
    every external call given the interactions so far.  [errors.display]
    returns nothing and does not raise. *)
Record Env : Type := {
  opts : options;
  float_of_str : string -> option float;
  from_pretrained : list event -> option string -> result model;
  setup : list event -> setup_op -> result unit;
  model_encode_image : list event -> model -> image -> result handle;
  model_query : list event -> model -> image_input -> string -> bool ->
                option (gmap string pyval) -> result pyval;
  model_caption : list event -> model -> image -> string -> bool ->
                  option (gmap string pyval) -> result pyval;
  model_point : list event -> model -> image -> string -> result pyval;
  model_detect : list event -> model -> image -> string ->
                 option (gmap string pyval) -> result pyval
}.

(** The module's globals, and the history of external interactions. *)
Record state : Type := State {
  moondream3_model : option model;
  loaded : option string;
  image_cache : gmap string handle;
  history : list event
}.

Definition set_model (m : option model) (s : state) : state :=
  State m (loaded s) (image_cache s) (history s).
Definition set_loaded (r : option string) (s : state) : state :=
  State (moondream3_model s) r (image_cache s) (history s).
Definition set_cache (c : gmap string handle) (s : state) : state :=
  State (moondream3_model s) (loaded s) c (history s).
Definition log_event (ev : event) (s : state) : state :=
  State (moondream3_model s) (loaded s) (image_cache s) (history s ++ [ev])%list.

(** The state at import time. *)
Definition initial : state := State None None ∅ [].

(** Computations that read and write the globals and may raise. *)
Definition M (A : Type) : Type := state -> result A * state.

Definition ret {A} (a : A) : M A := fun s => (Ok a, s).
Definition raise {A} (e : exn) : M A := fun s => (Raise e, s).
Definition bind {A B} (m : M A) (k : A -> M B) : M B :=
  fun s => match m s with
           | (Ok a, s') => k a s'
           | (Raise e, s') => (Raise e, s')
           end.
Definition get : M state := fun s => (Ok s, s).
Definition modify (f : state -> state) : M unit := fun s => (Ok tt, f s).
Definition lift {A} (r : result A) : M A := fun s => (r, s).

(** [try: body  except Exception as e: handler(e)] *)
Definition try_except {A} (body : M A) (handler : exn -> M A) : M A :=
  fun s => match body s with
           | (Ok a, s') => (Ok a, s')
           | (Raise e, s') => handler e s'
           end.

(** An external call: its outcome depends on the history before it, and the
    call is recorded whether it returns or raises. *)
Definition external {A} (ev : event) (outcome : list event -> result A) : M A :=
  fun s => (outcome (history s), log_event ev s).

Declare Scope m_scope.
Delimit Scope m_scope with M.
Notation "'let*' x ':=' m 'in' k" := (bind m (fun x => k))
  (at level 10, x name, m at level 100, k at level 200) : m_scope.
Notation "m ';;' k" := (bind m (fun _ => k))
  (at level 100, k at level 200, right associativity) : m_scope.
Local Open Scope m_scope.

Definition when (b : bool) (m : M unit) : M unit := if b then m else ret tt.

(** ** The module *)

Section Moondream3.

Variable E : Env.

(** *** Settings *)

Definition float_pos (x : float) : bool := PrimFloat.ltb 0%float x.

(** [get_settings()] *)
Definition get_settings : option (gmap string pyval) :=
  let settings : gmap string pyval := ∅ in
  let settings :=
    if 0 <? interrogate_vlm_max_length (opts E)
    then <["max_tokens" := PInt (interrogate_vlm_max_length (opts E))]> settings
    else settings in
  let settings :=
    if float_pos (interrogate_vlm_temperature (opts E))
    then <["temperature" := PFloat (interrogate_vlm_temperature (opts E))]> settings
    else settings in
  let settings :=
    if float_pos (interrogate_vlm_top_p (opts E))
    then <["top_p" := PFloat (interrogate_vlm_top_p (opts E))]> settings
    else settings in
  if decide (settings = ∅) then None else Some settings.

(** [settings[key] = value] when the per-call [value] is not [None]. *)
Definition override (key : string) (value : option pyval)
    (settings : gmap string pyval) : gmap string pyval :=
  match value with
  | Some v => <[key := v]> settings
  | None => settings
  end.

(** The settings [query] and [caption] build: the global ones, then the
    per-call parameters on top. *)
Definition build_settings (temperature top_p max_tokens : option pyval)
    : gmap string pyval :=
  let settings := default ∅ get_settings in
  let settings := override "temperature" temperature settings in
  let settings := override "top_p" top_p settings in
  override "max_tokens" max_tokens settings.

(** [settings if settings else None] *)
Definition or_none (settings : gmap string pyval) : option (gmap string pyval) :=
  if decide (settings = ∅) then None else Some settings.

(** *** Model loading *)

Definition in_list (x : string) (l : list string) : bool :=
  existsb (String.eqb x) l.

Definition reload (repo : option string) : M model :=
  modify (set_model None);;
  let* m := external (EvFromPretrained repo) (fun h => from_pretrained E h repo) in
  modify (set_model (Some m));;
  external (EvSetup (ModelEval m)) (fun h => setup E h (ModelEval m));;
  when (in_list "LLM" (cuda_compile (opts E)))
    (external (EvSetup (ModelCompile m)) (fun h => setup E h (ModelCompile m)));;
  modify (set_loaded repo);;
  external (EvSetup TorchGC) (fun h => setup E h TorchGC);;
  ret m.

(** [load_model(repo)] *)
Definition load_model (repo : option string) : M model :=
  let* s := get in
  let* m :=
    match moondream3_model s with
    | None => reload repo
    | Some m => if decide (loaded s = repo) then ret m else reload repo
    end in
  external (EvSetup (MoveModel m)) (fun h => setup E h (MoveModel m));;
  ret m.

(** *** Image encoding cache *)

(** [bool(cache_key)]: [None] and the empty string are false. *)
Definition key_truthy (cache_key : option string) : option string :=
  match cache_key with
  | Some k => if String.eqb k "" then None else Some k
  | None => None
  end.

(** [cache_key and cache_key in image_cache], with the entry found. *)
Definition cache_hit (cache_key : option string) (s : state) : option handle :=
  match key_truthy cache_key with
  | Some k => image_cache s !! k
  | None => None
  end.

Definition store (k : string) (encoded : handle) (s : state) : state :=
  set_cache (<[k := encoded]> (image_cache s)) s.

(** [encode_image(image, cache_key)] *)
Definition encode_image (img : image) (cache_key : option string) : M handle :=
  let* s := get in
  match cache_hit cache_key s with
  | Some h => ret h
  | None =>
      let* m := load_model (loaded s) in
      let* encoded :=
        external (EvEncodeImage m img) (fun h => model_encode_image E h m img) in
      match key_truthy cache_key with
      | Some k => modify (store k encoded);; ret encoded
      | None => ret encoded
      end
  end.

(** [clear_cache()] *)
Definition clear_cache : M unit :=
  modify (set_cache ∅).

(** *** Query and caption *)

Definition concat_error (ty : string) : string :=
  let quote := String (ascii_of_N 34) EmptyString in
  "can only concatenate " ++ ty ++ " (not " ++ quote ++ "str" ++ quote ++ ") to " ++ ty.

(** The inspection of a non-streaming response that [query] does for its
    trace: [response['reasoning'].get('text', '')] is measured, and cut
    and extended with ['...'] when longer than 100. *)
Definition inspect_response (stream : bool) (response : pyval) : result unit :=
  if stream then Ok tt
  else
    match response with
    | PDict d =>
        match dict_get "reasoning" d with
        | Some (PDict r) =>
            let text := default (PStr "") (dict_get "text" r) in
            rbind (len text) (fun n =>
              if (100 <? n)%nat then
                match text with
                | PStr _ => Ok tt
                | PList _ => TypeError (concat_error "list")
                | PTuple _ => TypeError (concat_error "tuple")
                | _ => Raise (Exn "KeyError" "slice(None, 100, None)")
                end
              else Ok tt)
        | Some r =>
            AttributeError ("'" ++ type_name r ++ "' object has no attribute 'get'")
        | None => Ok tt
        end
    | _ => Ok tt
    end.

(** [query(image, question, repo, stream, temperature, top_p, max_tokens,
    use_cache)] *)
Definition query (img : image) (question repo : string) (stream : bool)
    (temperature top_p max_tokens : option pyval) (use_cache : bool) : M pyval :=
  let* m := load_model (Some repo) in
  let settings := build_settings temperature top_p max_tokens in
  let* image_input :=
    if use_cache then
      let cache_key := pretty (image_id img) ++ "_" ++ question in
      let* h := encode_image img (Some cache_key) in ret (Encoded h)
    else ret (RawImage img) in
  let* response :=
    external (EvQuery m image_input question stream (or_none settings))
      (fun h => model_query E h m image_input question stream (or_none settings)) in
  lift (inspect_response stream response);;
  ret response.

(** [caption(image, repo, length, stream, temperature, top_p, max_tokens)] *)
Definition caption (img : image) (repo length : string) (stream : bool)
    (temperature top_p max_tokens : option pyval) : M pyval :=
  let* m := load_model (Some repo) in
  let settings := build_settings temperature top_p max_tokens in
  external (EvCaption m img length stream (or_none settings))
    (fun h => model_caption E h m img length stream (or_none settings)).

(** *** Point *)

Definition coord (key : string) (d : pyval) : result float :=
  rbind (getitem key d) (fun v =>
  rbind (to_float (float_of_str E) v) (fun f => Ok (clamp f))).

(** One pass of the loop over [points_list]: [None] when the entry lacks a
    field. *)
Definition point_entry (point_data : pyval) : result (option (float * float)) :=
  rbind (contains "x" point_data) (fun has_x : bool =>
  if has_x then
    rbind (contains "y" point_data) (fun has_y : bool =>
    if has_y then
      rbind (coord "x" point_data) (fun x =>
      rbind (coord "y" point_data) (fun y => Ok (Some (x, y))))
    else Ok None)
  else Ok None).

Fixpoint point_loop (points_list : list pyval) (coordinates : list (float * float))
    : result (list (float * float)) :=
  match points_list with
  | [] => Ok coordinates
  | point_data :: rest =>
      rbind (point_entry point_data) (fun p =>
      point_loop rest (match p with
                       | Some xy => (coordinates ++ [xy])%list
                       | None => coordinates
                       end))
  end.

Definition nonempty {A} (l : list A) : bool :=
  match l with [] => false | _ => true end.

(** The parsing of [point] after the model call. *)
Definition point_parse (raw : pyval) : result (option (list (float * float))) :=
  match raw with
  | PDict d =>
      match dict_get "points" d with
      | Some points_list =>
          if truthy points_list then
            rbind (len points_list) (fun n =>
            if (0 <? n)%nat then
              rbind (iter points_list) (fun items =>
              rbind (point_loop items []) (fun coordinates =>
              Ok (if nonempty coordinates then Some coordinates else None)))
            else Ok None)
          else Ok None
      | None => Ok None
      end
  | PList [x; y] | PTuple [x; y] =>
      rbind (to_float (float_of_str E) x) (fun x =>
      rbind (to_float (float_of_str E) y) (fun y =>
      Ok (Some [(clamp x, clamp y)])))
  | _ => Ok None
  end.

(** [point(image, object_name, repo)] *)
Definition point (img : image) (object_name repo : string)
    : M (option (list (float * float))) :=
  let* m := load_model (Some repo) in
  let* raw :=
    external (EvPoint m img object_name) (fun h => model_point E h m img object_name) in
  lift (point_parse raw).

(** *** Detect *)

Record detection : Type := Detection {
  label : string;
  bbox : list float;
  confidence : float
}.

(** [k1 in obj and k2 in obj and ...], left to right. *)
Fixpoint has_all (keys : list string) (obj : pyval) : result bool :=
  match keys with
  | [] => Ok true
  | key :: rest =>
      rbind (contains key obj) (fun present : bool =>
      if present then has_all rest obj else Ok false)
  end.

(** The body of the [try] in the loop over [objects_list]: the detection
    to append, if any. *)
Definition detect_entry (object_name : string) (obj : pyval) : result (option detection) :=
  rbind (has_all ["x_min"; "y_min"; "x_max"; "y_max"] obj) (fun all_present =>
  if all_present then
    rbind (coord "x_min" obj) (fun x1 =>
    rbind (coord "y_min" obj) (fun y1 =>
    rbind (coord "x_max" obj) (fun x2 =>
    rbind (coord "y_max" obj) (fun y2 =>
    Ok (Some (Detection object_name [x1; y1; x2; y2] 1.0%float))))))
  else Ok None).

Definition display (e : exn) (label : string) : M unit :=
  external (EvDisplay e label) (fun _ => Ok tt).

Fixpoint detect_loop (object_name : string) (objects_list : list pyval)
    (detections : list detection) : M (list detection) :=
  match objects_list with
  | [] => ret detections
  | obj :: rest =>
      let* detections :=
        try_except
          (let* d := lift (detect_entry object_name obj) in
           ret (match d with
                | Some det => (detections ++ [det])%list
                | None => detections
                end))
          (fun e => display e "Moondream3 detect parsing";; ret detections) in
      detect_loop object_name rest detections
  end.

(** The parsing of [detect] after the model call. *)
Definition detect_parse (object_name : string) (raw : pyval) : M (list detection) :=
  match raw with
  | PDict d =>
      match dict_get "objects" d with
      | Some objects_list =>
          let* items := lift (iter objects_list) in
          detect_loop object_name items []
      | None => ret []
      end
  | _ => ret []
  end.

(** [detect(image, object_name, repo, max_objects)] *)
Definition detect (img : image) (object_name repo : string) (max_objects : pyval)
    : M (list detection) :=
  let* m := load_model (Some repo) in
  let settings : gmap string pyval :=
    if truthy max_objects then <["max_objects" := max_objects]> (∅ : gmap string pyval)
    else ∅ in
  let* raw :=
    external (EvDetect m img object_name (or_none settings))
      (fun h => model_detect E h m img object_name (or_none settings)) in
  detect_parse object_name raw.

(** *** The dispatcher *)

(** [question.replace('<', '').replace('>', '').replace('_', ' ')] *)
Definition clean_question (question : string) : string :=
  replace_char "_" " " (replace_char ">" "" (replace_char "<" "" question)).

(** The mode chosen from the cleaned question when none is given. *)
Definition auto_mode (question : string) : string :=
  let question_lower := lower question in
  let has := fun cue => Text.contains cue question_lower in
  if String.eqb question "CAPTION" || String.eqb question "caption" || has "caption" then
    if has "more detailed" || has "very long" then "caption_long"
    else if has "detailed" || has "long" then "caption_normal"
    else if has "short" || has "brief" then "caption_short"
    else if String.eqb question "CAPTION" then "caption_short"
    else if String.eqb question "DETAILED CAPTION" then "caption_normal"
    else if String.eqb question "MORE DETAILED CAPTION" then "caption_long"
    else "caption_normal"
  else if has "where is" || has "locate" || has "find" || has "point" then "point"
  else if has "detect" || has "bounding box" || has "bbox" then "detect"
  else "query".

(** Trigger phrases removed one after the other, then punctuation, outer
    whitespace and a leading article. *)
Definition strip_phrases (phrases : list string) (s : string) : string :=
  fold_left (fun object_name phrase => sub_phrase phrase object_name) phrases s.

Definition extract (phrases : list string) (question : string) : string :=
  sub_leading_the (strip (sub_punct (strip_phrases phrases question))).

Definition point_phrases : list string := ["point at"; "where is"; "locate"; "find"].
Definition detect_phrases : list string :=
  ["detect"; "find all"; "bounding box"; "bbox"; "find"].

(** The object name [predict] passes to [point]. *)
Definition point_object_name (question : string) : string :=
  extract point_phrases question.

(** The object name [predict] passes to [detect]. *)
Definition detect_object_name (question : string) : string :=
  let object_name := extract detect_phrases question in
  if Text.contains " and " (lower object_name)
  then strip (split_and_first object_name)
  else object_name.

Inductive payload : Type :=
  | Points (points : list (float * float))
  | Detections (detections : list detection).

(** What [predict] returns: the invoker's response or an error text, or a
    pair of a summary and the data to draw. *)
Inductive response : Type :=
  | Value (v : pyval)
  | Annotated (text : string) (data : option payload).

Definition newline : string := String (ascii_of_N 10) EmptyString.

Definition fmt_point (xy : float * float) : string :=
  "(" ++ format_fixed 3 (fst xy) ++ ", " ++ format_fixed 3 (snd xy) ++ ")".

Fixpoint point_lines (i : N) (points : list (float * float)) : list string :=
  match points with
  | [] => []
  | xy :: rest => ("  " ++ pretty i ++ ". " ++ fmt_point xy) :: point_lines (i + 1) rest
  end.

Definition point_text (points : list (float * float)) : string :=
  match points with
  | [xy] => "Found at coordinates: " ++ fmt_point xy
  | _ =>
      String.concat newline
        (("Found " ++ pretty (N.of_nat (length points)) ++ " instances:")
           :: point_lines 1 points)
  end.

(** [l[i]] *)
Definition item (i : nat) (l : list float) : result float :=
  match nth_error l i with
  | Some x => Ok x
  | None => Raise (Exn "IndexError" "list index out of range")
  end.

Definition detect_line (det : detection) : result string :=
  rbind (item 0 (bbox det)) (fun b0 =>
  rbind (item 1 (bbox det)) (fun b1 =>
  rbind (item 2 (bbox det)) (fun b2 =>
  rbind (item 3 (bbox det)) (fun b3 =>
  Ok (label det ++ ": [" ++ format_fixed 3 b0 ++ ", " ++ format_fixed 3 b1 ++ ", "
      ++ format_fixed 3 b2 ++ ", " ++ format_fixed 3 b3 ++ "] (confidence: "
      ++ format_fixed 2 (confidence det) ++ ")"))))).

Fixpoint detect_lines (results : list detection) : result (list string) :=
  match results with
  | [] => Ok []
  | det :: rest =>
      rbind (detect_line det) (fun line =>
      rbind (detect_lines rest) (fun lines => Ok (line :: lines)))
  end.

Definition mode_is (mode name : string) : bool := String.eqb mode name.

(** The body of the [try] in [predict]. *)
Definition dispatch (mode question : string) (img : image) (repo : string)
    (stream use_cache : bool) (kwargs : list (string * pyval)) : M response :=
  if mode_is mode "caption_short" then
    let* r := caption img repo "short" stream None None None in ret (Value r)
  else if mode_is mode "caption_long" then
    let* r := caption img repo "long" stream None None None in ret (Value r)
  else if mode_is mode "caption" || mode_is mode "caption_normal" then
    let* r := caption img repo "normal" stream None None None in ret (Value r)
  else if mode_is mode "point" then
    let object_name := point_object_name question in
    let* result := point img object_name repo in
    match result with
    | Some points =>
        if nonempty points
        then ret (Annotated (point_text points) (Some (Points points)))
        else ret (Annotated "Object not found" None)
    | None => ret (Annotated "Object not found" None)
    end
  else if mode_is mode "detect" then
    let object_name := detect_object_name question in
    let* results :=
      detect img object_name repo (default (PInt 10) (dict_get "max_objects" kwargs)) in
    if nonempty results then
      let* lines := lift (detect_lines results) in
      ret (Annotated (String.concat newline lines) (Some (Detections results)))
    else ret (Annotated "No objects detected" None)
  else
    let question :=
      if (String.length question <? 2)%nat then "Describe this image." else question in
    let* r := query img question repo stream None None None use_cache in
    ret (Value r).

(** [predict(question, image, repo, model_name, mode, stream, use_cache,
    **kwargs)] *)
Definition predict (question : string) (img : image) (repo : string)
    (mode : option string) (stream use_cache : bool)
    (kwargs : list (string * pyval)) : M response :=
  let question := clean_question question in
  let mode := match mode with
              | None => auto_mode question
              | Some mode => mode
              end in
  try_except
    (dispatch mode question img repo stream use_cache kwargs)
    (fun e => display e "Moondream3";;
              ret (Value (PStr ("Error: " ++ exn_msg e)))).

End Moondream3.

(** * Sample environments and responses *)

Module Demo.

(** An environment in which loading succeeds, every encoding gets a fresh
    handle (the number of earlier interactions), and [point] and [detect]
    answer with the given raw values. *)
Definition scripted (raw_point raw_detect : pyval) : Env := {|
  opts := Options 0 0%float 0%float [];
  float_of_str := fun _ => None;
  from_pretrained := fun _ _ => Ok 1%N;
  setup := fun _ _ => Ok tt;
  model_encode_image := fun h _ _ => Ok (N.of_nat (length h));
  model_query := fun _ _ _ _ _ _ => Ok (PStr "an answer");
  model_caption := fun _ _ _ _ _ _ => Ok (PStr "a caption");
  model_point := fun _ _ _ _ => Ok raw_point;
  model_detect := fun _ _ _ _ _ => Ok raw_detect
|}.

(** An environment whose model raises [e] at every capability. *)
Definition failing (e : exn) : Env := {|
  opts := Options 0 0%float 0%float [];
  float_of_str := fun _ => None;
  from_pretrained := fun _ _ => Ok 1%N;
  setup := fun _ _ => Ok tt;
  model_encode_image := fun _ _ _ => Raise e;
  model_query := fun _ _ _ _ _ _ => Raise e;
  model_caption := fun _ _ _ _ _ _ => Raise e;
  model_point := fun _ _ _ _ => Raise e;
  model_detect := fun _ _ _ _ _ => Raise e
|}.

(** As [scripted], with a global temperature of 0 (disabled) and a global
    [max_tokens] of 100. *)
Definition configured : Env := {|
  opts := Options 100 0%float 0%float [];
  float_of_str := fun _ => None;
  from_pretrained := fun _ _ => Ok 1%N;
  setup := fun _ _ => Ok tt;
  model_encode_image := fun h _ _ => Ok (N.of_nat (length h));
  model_query := fun _ _ _ _ _ _ => Ok (PStr "an answer");
  model_caption := fun _ _ _ _ _ _ => Ok (PStr "a caption");
  model_point := fun _ _ _ _ => Ok PNone;
  model_detect := fun _ _ _ _ _ => Ok PNone
|}.

Definition img : image := Image 77.

Definition out_of_memory : exn := Exn "RuntimeError" "CUDA out of memory".

(** U+00E9, a letter, and U+00A0, the no-break space. *)
Definition e_acute : string := String (ascii_of_N 233) EmptyString.
Definition no_break_space : string := String (ascii_of_N 160) EmptyString.

(** [{'points': [{'x': 1.4, 'y': -0.2}, {'x': 0.5, 'y': 0.6}]}] *)
Definition two_points : pyval :=
  PDict [("points", PList [PDict [("x", PFloat 1.4); ("y", PFloat (-0.2))];
                           PDict [("x", PFloat 0.5); ("y", PFloat 0.6)]])].

(** [{'points': [{'x': 0.1}]}] *)
Definition point_without_y : pyval :=
  PDict [("points", PList [PDict [("x", PFloat 0.1)]])].

(** [{'points': [{'x': None, 'y': 0.5}]}] *)
Definition point_with_null : pyval :=
  PDict [("points", PList [PDict [("x", PNone); ("y", PFloat 0.5)]])].

(** [{'objects': [{'x_min': 0, 'y_min': 0, 'x_max': 0.5, 'y_max': 0.5},
                  {'x_min': 0}]}] *)
Definition one_box_one_partial : pyval :=
  PDict [("objects",
          PList [PDict [("x_min", PInt 0); ("y_min", PInt 0);
                        ("x_max", PFloat 0.5); ("y_max", PFloat 0.5)];
                 PDict [("x_min", PInt 0)]])].

(** [{'objects': [{'x_min': None, 'y_min': 0, 'x_max': 0.5, 'y_max': 0.5},
                  {'x_min': 0, 'y_min': 0, 'x_max': 0.5, 'y_max': 0.5}]}] *)
Definition one_null_one_box : pyval :=
  PDict [("objects",
          PList [PDict [("x_min", PNone); ("y_min", PInt 0);
                        ("x_max", PFloat 0.5); ("y_max", PFloat 0.5)];
                 PDict [("x_min", PInt 0); ("y_min", PInt 0);
                        ("x_max", PFloat 0.5); ("y_max", PFloat 0.5)]])].

End Demo.

(** * The vocabulary of the properties *)

(** ** Frames *)

(** A relation between the state before and after holds for every run. *)
Definition keeps {A} (R : state -> state -> Prop) (m : M A) : Prop :=
  forall s r s', m s = (r, s') -> R s s'.

(** The history only grows. *)
Definition extends (s s' : state) : Prop :=
  exists tail, history s' = (history s ++ tail)%list.

(** The state with another history. *)
Definition with_history (h : list event) (s : state) : state :=
  State (moondream3_model s) (loaded s) (image_cache s) h.

(** ** Coordinates *)

Definition point_in_unit (p : float * float) : Prop :=
  in_unit (fst p) = true /\ in_unit (snd p) = true.

Definition detection_in_unit (d : detection) : Prop :=
  Forall (fun c => in_unit c = true) (bbox d).

(** [float(v)] returns. *)
Definition numeric (E : Env) (v : pyval) : Prop :=
  exists f, to_float (float_of_str E) v = Ok f.

(** ** Entries of a point response *)

(** The point an entry of [points] stands for: a record with both an [x]
    and a [y] field gives the clamped pair, anything else gives none. *)
Definition as_point (E : Env) (entry : pyval) : option (float * float) :=
  match entry with
  | PDict d =>
      match dict_get "x" d, dict_get "y" d with
      | Some vx, Some vy =>
          match to_float (float_of_str E) vx, to_float (float_of_str E) vy with
          | Ok x, Ok y => Some (clamp x, clamp y)
          | _, _ => None
          end
      | _, _ => None
      end
  | _ => None
  end.

(** An entry of the documented form: a record whose [x] and [y], when both
    present, are numbers. *)
Definition regular (E : Env) (entry : pyval) : Prop :=
  exists d, entry = PDict d /\
    forall vx vy, dict_get "x" d = Some vx -> dict_get "y" d = Some vy ->
                  numeric E vx /\ numeric E vy.

(** A raw result that is neither a record with a [points] field nor a
    sequence of two elements. *)
Definition other_shape (raw : pyval) : Prop :=
  match raw with
  | PDict d => dict_get "points" d = None
  | PList l | PTuple l => length l <> 2%nat
  | _ => True
  end.

(** ** Entries of a detect response *)

(** The detection an entry of [objects] stands for: a record with the four
    fields, all numbers, gives the queried name, the clamped box and
    confidence 1.0; anything else gives none. *)
Definition as_detection (E : Env) (name : string) (entry : pyval) : option detection :=
  match entry with
  | PDict d =>
      match dict_get "x_min" d, dict_get "y_min" d,
            dict_get "x_max" d, dict_get "y_max" d with
      | Some v1, Some v2, Some v3, Some v4 =>
          match to_float (float_of_str E) v1, to_float (float_of_str E) v2,
                to_float (float_of_str E) v3, to_float (float_of_str E) v4 with
          | Ok x1, Ok y1, Ok x2, Ok y2 =>
              Some (Detection name [clamp x1; clamp y1; clamp x2; clamp y2] 1.0%float)
          | _, _, _, _ => None
          end
      | _, _, _, _ => None
      end
  | _ => None
  end.

(** The exception the processing of an entry raises, if any. *)
Definition entry_error (E : Env) (name : string) (entry : pyval) : option exn :=
  match detect_entry E name entry with
  | Raise e => Some e
  | Ok _ => None
  end.

(** A record without one of the four fields. *)
Definition lacks_field (d : list (string * pyval)) : bool :=
  negb (dict_has "x_min" d && dict_has "y_min" d &&
        dict_has "x_max" d && dict_has "y_max" d).

(** A record with the four fields, one of which [float] rejects. *)
Definition not_numeric (E : Env) (d : list (string * pyval)) : Prop :=
  exists v1 v2 v3 v4,
    dict_get "x_min" d = Some v1 /\ dict_get "y_min" d = Some v2 /\
    dict_get "x_max" d = Some v3 /\ dict_get "y_max" d = Some v4 /\
    exists e, (to_float (float_of_str E) v1 = Raise e \/
               to_float (float_of_str E) v2 = Raise e \/
               to_float (float_of_str E) v3 = Raise e \/
               to_float (float_of_str E) v4 = Raise e).

(** The reports [errors.display] receives for a list of exceptions. *)
Definition reports (errs : list exn) : list event :=
  map (fun e => EvDisplay e "Moondream3 detect parsing") errs.

(** The settings [detect] sends: [max_objects] when it is true. *)
Definition detect_settings (max_objects : pyval) : option (gmap string pyval) :=
  or_none (if truthy max_objects
           then <["max_objects" := max_objects]> (∅ : gmap string pyval)
           else ∅).

(** ** Dispatch *)

(** The text returned for an exception caught by [predict]. *)
Definition error_text (e : exn) : response :=
  Value (PStr ("Error: " ++ exn_msg e)).

(** The mode [predict] dispatches on. *)
Definition chosen_mode (question : string) (mode : option string) : string :=
  match mode with
  | None => auto_mode (clean_question question)
  | Some mode => mode
  end.

(** Every capability of the model raises [e]. *)
Definition model_fails (E : Env) (e : exn) : Prop :=
  (forall h m i, model_encode_image E h m i = Raise e) /\
  (forall h m i q st se, model_query E h m i q st se = Raise e) /\
  (forall h m i l st se, model_caption E h m i l st se = Raise e) /\
  (forall h m i o, model_point E h m i o = Raise e) /\
  (forall h m i o se, model_detect E h m i o se = Raise e).

(** What [predict] does to the stripped name in detect mode. *)
Definition cut_at_and (name : string) : string :=
  if Text.contains " and " (lower name) then strip (split_and_first name) else name.

(** The text before the first occurrence of [sep], the whole text when
    there is none. *)
Fixpoint before_first (sep s : string) : string :=
  if starts_with sep s then EmptyString
  else match s with
       | EmptyString => EmptyString
       | String c s' => String c (before_first sep s')
       end.

(** ** The wording of cleaning and extraction *)

Module Wording.

(** The question without angle brackets and with a space for every
    underscore. *)
Fixpoint cleaned (text : string) : string :=
  match text with
  | EmptyString => EmptyString
  | String c rest =>
      if Ascii.eqb c "<" || Ascii.eqb c ">" then cleaned rest
      else String (if Ascii.eqb c "_" then " "%char else c) (cleaned rest)
  end.

(** The phrase stands at the start of the text as whole words, in any letter
    case: the text begins with its letters, with a word boundary before the
    first and after the last of them.  [before] is the character in front
    of the text. *)
Definition occurs_here (phrase : string) (before : option ascii) (text : string)
    : bool :=
  let n := String.length phrase in
  (0 <? n)%nat && (n <=? String.length text)%nat &&
  String.eqb (lower phrase) (lower (String.substring 0 n text)) &&
  word_boundary before (String.get 0 text) &&
  word_boundary (String.get (n - 1) text) (String.get n text).

(** The occurrences of the phrase deleted from left to right, the search
    going on behind each occurrence; [steps] bounds the number of
    characters looked at. *)
Fixpoint deleted (steps : nat) (phrase : string) (before : option ascii)
    (text : string) : string :=
  match steps, text with
  | S steps', String c rest =>
      if occurs_here phrase before text then
        let n := String.length phrase in
        deleted steps' phrase (String.get (n - 1) text) (Text.drop n text)
      else String c (deleted steps' phrase (Some c) rest)
  | _, _ => text
  end.

Definition without_phrase (phrase text : string) : string :=
  deleted (String.length text) phrase None text.

(** The phrases of the list taken out one after the other. *)
Fixpoint without_phrases (phrases : list string) (text : string) : string :=
  match phrases with
  | [] => text
  | phrase :: rest => without_phrases rest (without_phrase phrase text)
  end.

Definition punctuation : list ascii := ["?"; "."; "!"; ","]%char.

Definition without_punctuation (text : string) : string :=
  string_of_list_ascii
    (List.filter (fun c => negb (existsb (Ascii.eqb c) punctuation))
       (list_ascii_of_string text)).

(** The characters from the first one that is not whitespace. *)
Fixpoint skip_spaces (l : list ascii) : list ascii :=
  match l with
  | c :: rest => if is_space c then skip_spaces rest else l
  | [] => []
  end.

Definition trimmed_left (text : string) : string :=
  string_of_list_ascii (skip_spaces (list_ascii_of_string text)).

(** No whitespace left at either end. *)
Definition trimmed (text : string) : string :=
  string_of_list_ascii
    (rev (skip_spaces (rev (skip_spaces (list_ascii_of_string text))))).

(** One leading "the", in any letter case and followed by whitespace, taken
    off together with the whitespace around it. *)
Definition without_article (text : string) : string :=
  match trimmed_left text with
  | String t (String h (String e (String sp rest))) =>
      if String.eqb "the" (lower (String t (String h (String e ""))))
         && is_space sp
      then trimmed_left rest
      else text
  | _ => text
  end.

(** The object name of a cleaned question: trigger phrases, punctuation,
    outer whitespace and a leading "the" removed, in this order. *)
Definition object_name (phrases : list string) (text : string) : string :=
  without_article (trimmed (without_punctuation (without_phrases phrases text))).

(** The position of the first "and" that stands between whitespace, in any
    letter case. *)
Fixpoint first_and (text : string) : option nat :=
  if ws_and_ws_at text then Some 0%nat
  else match text with
       | EmptyString => None
       | String _ rest => option_map S (first_and rest)
       end.

(** One object per request: when the lowered name holds " and ", the text
    before the first "and" between whitespace, without whitespace at either
    end. *)
Definition first_object (name : string) : string :=
  if Text.contains " and " (lower name) then
    match first_and name with
    | Some i => trimmed (String.substring 0 i name)
    | None => trimmed name
    end
  else name.

End Wording.

(** ** Classification by rules *)

Module Classification.

(** The six operating modes. *)
Inductive Mode : Type :=
  | Query
  | CaptionShort
  | CaptionNormal
  | CaptionLong
  | PointMode
  | DetectMode.

Definition mode_name (m : Mode) : string :=
  match m with
  | Query => "query"
  | CaptionShort => "caption_short"
  | CaptionNormal => "caption_normal"
  | CaptionLong => "caption_long"
  | PointMode => "point"
  | DetectMode => "detect"
  end.

(** One of the cues occurs in the text. *)
Definition any_cue (cues : list string) (text : string) : bool :=
  existsb (fun cue => Text.contains cue text) cues.

(** The rules after the caption rule, in priority order. *)
Definition rules : list (list string * Mode) :=
  [ (["where is"; "locate"; "find"; "point"], PointMode);
    (["detect"; "bounding box"; "bbox"], DetectMode) ].

(** The mode of the first rule with a cue in the text, [Query] when no rule
    has one. *)
Fixpoint first_match (rs : list (list string * Mode)) (text : string) : Mode :=
  match rs with
  | [] => Query
  | (cues, m) :: rest => if any_cue cues text then m else first_match rest text
  end.

(** The length of a caption request: cues in the lowered text first, then
    the exact literals, then normal. *)
Definition caption_length (question lowered : string) : Mode :=
  if any_cue ["more detailed"; "very long"] lowered then CaptionLong
  else if any_cue ["detailed"; "long"] lowered then CaptionNormal
  else if any_cue ["short"; "brief"] lowered then CaptionShort
  else if String.eqb question "CAPTION" then CaptionShort
  else if String.eqb question "DETAILED CAPTION" then CaptionNormal
  else if String.eqb question "MORE DETAILED CAPTION" then CaptionLong
  else CaptionNormal.

(** Priority-ordered, first-match classification of a cleaned question. *)
Definition classify (question : string) : Mode :=
  let lowered := lower question in
  if any_cue ["caption"] lowered then caption_length question lowered
  else first_match rules lowered.

End Classification.

Import Classification.

(** ** Settings *)

(** The global value of a field, when it is set (greater than zero). *)
Definition global_value (E : Env) (key : string) : option pyval :=
  if decide (key = "max_tokens") then
    if 0 <? interrogate_vlm_max_length (opts E)
    then Some (PInt (interrogate_vlm_max_length (opts E))) else None
  else if decide (key = "temperature") then
    if float_pos (interrogate_vlm_temperature (opts E))
    then Some (PFloat (interrogate_vlm_temperature (opts E))) else None
  else if decide (key = "top_p") then
    if float_pos (interrogate_vlm_top_p (opts E))
    then Some (PFloat (interrogate_vlm_top_p (opts E))) else None
  else None.

(** The per-call value of a field, when one is given. *)
Definition call_value (temperature top_p max_tokens : option pyval) (key : string)
    : option pyval :=
  if decide (key = "max_tokens") then max_tokens
  else if decide (key = "temperature") then temperature
  else if decide (key = "top_p") then top_p
  else None.

(** ** Encoding cache *)

Definition is_encode (ev : event) : bool :=
  match ev with
  | EvEncodeImage _ _ => true
  | _ => false
  end.

(** The number of calls of [model.encode_image] so far. *)
Definition encode_calls (s : state) : nat :=
  length (filter (fun ev => is_encode ev = true) (history s)).

(** The cache and the number of encodings are as before. *)
Definition same_encodings (s s' : state) : Prop :=
  image_cache s' = image_cache s /\ encode_calls s' = encode_calls s.

(** A computation that neither reads nor writes the cache: run with another
    cache it behaves the same and leaves that cache in place. *)
Definition cache_blind {A} (m : M A) : Prop :=
  forall c s, m (set_cache c s) = (fst (m s), set_cache c (snd (m s))).

(** ** Model loading *)

Definition is_load (ev : event) : bool :=
  match ev with
  | EvFromPretrained _ => true
  | _ => false
  end.

(** The number of calls of [from_pretrained] so far. *)
Definition load_calls (s : state) : nat :=
  length (filter (fun ev => is_load ev = true) (history s)).

(** ** Further sample environments *)

Module Cases.

(** An environment given by its loader and its housekeeping; encodings get
    fresh handles, the model answers every request with ["an answer"]. *)
Definition with_loader (loader : list event -> option string -> result model)
    (housekeeping : list event -> setup_op -> result unit) : Env := {|
  opts := Options 0 0%float 0%float [];
  float_of_str := fun _ => None;
  from_pretrained := loader;
  setup := housekeeping;
  model_encode_image := fun h _ _ => Ok (N.of_nat (length h));
  model_query := fun _ _ _ _ _ _ => Ok (PStr "an answer");
  model_caption := fun _ _ _ _ _ _ => Ok (PStr "a caption");
  model_point := fun _ _ _ _ => Ok PNone;
  model_detect := fun _ _ _ _ _ => Ok PNone
|}.

Definition not_found : exn := Exn "OSError" "repository not found".

(** Loading succeeds for the repository ["a"] (model 1) and fails for every
    other one. *)
Definition only_a : Env :=
  with_loader
    (fun _ repo => if decide (repo = Some "a") then Ok 1%N else Raise not_found)
    (fun _ _ => Ok tt).

(** Loading gives model 1 for ["a"] and model 2 otherwise; [eval] fails on
    model 2. *)
Definition eval_fails : Env :=
  with_loader
    (fun _ repo => if decide (repo = Some "a") then Ok 1%N else Ok 2%N)
    (fun _ op => match op with
                 | ModelEval 2%N => Raise (Exn "RuntimeError" "eval failed")
                 | _ => Ok tt
                 end).

(** An environment whose [model.query] answers with the given value. *)
Definition answering (response : pyval) : Env := {|
  opts := Options 0 0%float 0%float [];
  float_of_str := fun _ => None;
  from_pretrained := fun _ _ => Ok 1%N;
  setup := fun _ _ => Ok tt;
  model_encode_image := fun h _ _ => Ok (N.of_nat (length h));
  model_query := fun _ _ _ _ _ _ => Ok response;
  model_caption := fun _ _ _ _ _ _ => Ok (PStr "a caption");
  model_point := fun _ _ _ _ => Ok PNone;
  model_detect := fun _ _ _ _ _ => Ok PNone
|}.

End Cases.

(** ** Cache use by the dispatcher *)

(** The mode is none of the names [predict] tests for, so that the query
    branch is taken. *)
Definition routes_to_query (mode : string) : bool :=
  negb (mode_is mode "caption_short" || mode_is mode "caption_long"
        || mode_is mode "caption" || mode_is mode "caption_normal"
        || mode_is mode "point" || mode_is mode "detect").

(** Every entry of the cache is still there, with the same handle. *)
Definition cache_grows (s s' : state) : Prop :=
  image_cache s ⊆ image_cache s'.

(** The key [query] caches an encoding under. *)
Definition cache_key_of (img : image) (question : string) : string :=
  pretty (image_id img) ++ "_" ++ question.

(** ** The query branch *)

(** The question the query branch sends: a cleaned question of fewer than
    two characters is replaced. *)
Definition effective_question (question : string) : string :=
  if (String.length question <? 2)%nat then "Describe this image." else question.

(** What [predict] makes of a run of an invoker that returns a response. *)
Definition as_response (run : result pyval * state) : result response * state :=
  match run with
  | (Ok r, s') => (Ok (Value r), s')
  | (Raise e, s') =>
      (Ok (Value (PStr ("Error: " ++ exn_msg e))),
       log_event (EvDisplay e "Moondream3") s')
  end.

(** ** Characters of questions and object names *)

(** Every character of the text satisfies [P]. *)
Fixpoint all_chars (P : ascii -> bool) (text : string) : bool :=
  match text with
  | EmptyString => true
  | String c rest => P c && all_chars P rest
  end.

(** The characters [clean_question] takes out of a question. *)
Definition is_markup (c : ascii) : bool :=
  Ascii.eqb c "<" || Ascii.eqb c ">" || Ascii.eqb c "_".

(** A raw result that is not a record with an [objects] field. *)
Definition no_objects (raw : pyval) : Prop :=
  match raw with
  | PDict d => dict_get "objects" d = None
  | _ => True
  end.

(** ** Counting loads *)

(** A model is in place for the repository. *)
Definition ready (repo : string) (s : state) : Prop :=
  moondream3_model s <> None /\ loaded s = Some repo.

(** From a state with a model, nothing was loaded and the model and its
    repository are the same. *)
Definition steady (s s' : state) : Prop :=
  moondream3_model s <> None ->
  load_calls s' = load_calls s /\
  moondream3_model s' = moondream3_model s /\
  loaded s' = loaded s.

(** No load when the model was ready, one load otherwise. *)
Definition counted (repo : string) (s s' : state) : Prop :=
  (ready repo s -> load_calls s' = load_calls s) /\
  (~ ready repo s -> load_calls s' = S (load_calls s)).

(** * Properties *)

(** ** Clamping *)

Section Clamp.

Local Open Scope float_scope.

Lemma ltb_leb (x y : float) : (x <? y) = true -> (x <=? y) = true.
Proof.
  rewrite ltb_spec, leb_spec. unfold SFltb, SFleb.
  destruct (SFcompare (Prim2SF x) (Prim2SF y)) as [[]|]; congruence.
Qed.

(** Whatever the input (finite, infinite or not a number), the clamped
    value is between 0 and 1. *)
Lemma clamp_in_unit (x : float) : in_unit (clamp x) = true.
Proof.
  unfold clamp, min_1.
  destruct (x <? 1) eqn:Hhi.
  - unfold max_0. destruct (0 <? x) eqn:Hlo.
    + unfold in_unit. now rewrite !ltb_leb.
    + reflexivity.
  - reflexivity.
Qed.

(** The clamped value is 0, 1 or the input itself. *)
Lemma clamp_cases (x : float) :
  clamp x = 0 \/ clamp x = 1 \/ clamp x = x.
Proof.
  unfold clamp, min_1, max_0.
  destruct (x <? 1); [destruct (0 <? x)|]; auto.
Qed.

End Clamp.

(** ** Reasoning about computations *)

(** Case analysis on the outcome of the first computation of a [bind]. *)
Ltac step_bind :=
  match goal with
  | H : context [bind ?m _ ?s] |- _ =>
      unfold bind at 1 in H;
      let r := fresh "r" in let s1 := fresh "s" in let Hm := fresh "Hm" in
      destruct (m s) as [r s1] eqn:Hm; destruct r
  | |- context [bind ?m _ ?s] =>
      unfold bind at 1;
      let r := fresh "r" in let s1 := fresh "s" in let Hm := fresh "Hm" in
      destruct (m s) as [r s1] eqn:Hm; destruct r
  end.

Ltac inv_pair :=
  repeat match goal with
  | H : (_, _) = (_, _) |- _ => inversion H; subst; clear H
  | H : Ok _ = Ok _ |- _ => inversion H; subst; clear H
  | H : Raise _ = Raise _ |- _ => inversion H; subst; clear H
  | H : Some _ = Some _ |- _ => inversion H; subst; clear H
  | H : Ok _ = Raise _ |- _ => discriminate H
  | H : Raise _ = Ok _ |- _ => discriminate H
  end.

(** Case analysis on the first result of an [rbind]. *)
Ltac step_rbind H :=
  match type of H with
  | context [rbind ?r _] =>
      let a := fresh "a" in let Hr := fresh "Hr" in
      destruct r as [a|?] eqn:Hr; cbn [rbind] in H; [|discriminate H]
  end.

Section Keeps.

Variable R : state -> state -> Prop.
Hypothesis R_refl : forall s, R s s.
Hypothesis R_trans : forall s1 s2 s3, R s1 s2 -> R s2 s3 -> R s1 s3.

Lemma keeps_ret {A} (a : A) : keeps R (ret a).
Proof. intros s r s' H. inversion H; subst. apply R_refl. Qed.

Lemma keeps_raise {A} (e : exn) : keeps R (@raise A e).
Proof. intros s r s' H. inversion H; subst. apply R_refl. Qed.

Lemma keeps_lift {A} (x : result A) : keeps R (lift x).
Proof. intros s r s' H. inversion H; subst. apply R_refl. Qed.

Lemma keeps_get : keeps R get.
Proof. intros s r s' H. inversion H; subst. apply R_refl. Qed.

Lemma keeps_modify (f : state -> state) :
  (forall s, R s (f s)) -> keeps R (modify f).
Proof. intros Hf s r s' H. inversion H; subst. apply Hf. Qed.

Lemma keeps_external {A} (ev : event) (outcome : list event -> result A) :
  (forall s, R s (log_event ev s)) -> keeps R (external ev outcome).
Proof. intros Hev s r s' H. inversion H; subst. apply Hev. Qed.

Lemma keeps_bind {A B} (m : M A) (k : A -> M B) :
  keeps R m -> (forall a, keeps R (k a)) -> keeps R (bind m k).
Proof.
  intros Hm Hk s r s' H. unfold bind in H.
  destruct (m s) as [[a|e] s1] eqn:E1.
  - eapply R_trans; [eapply Hm, E1 | eapply Hk, H].
  - inversion H; subst. eapply Hm, E1.
Qed.

Lemma keeps_try {A} (body : M A) (handler : exn -> M A) :
  keeps R body -> (forall e, keeps R (handler e)) -> keeps R (try_except body handler).
Proof.
  intros Hb Hh s r s' H. unfold try_except in H.
  destruct (body s) as [[a|e] s1] eqn:E1.
  - inversion H; subst. eapply Hb, E1.
  - eapply R_trans; [eapply Hb, E1 | eapply Hh, H].
Qed.

Lemma keeps_when (b : bool) (m : M unit) : keeps R m -> keeps R (when b m).
Proof. destruct b; [trivial | intros _; apply keeps_ret]. Qed.

End Keeps.

(** ** C1: returned coordinates are in the unit interval *)

Section Coordinates.

Variable E : Env.

Lemma coord_in_unit key d x : coord E key d = Ok x -> in_unit x = true.
Proof.
  unfold coord. intros H.
  step_rbind H. step_rbind H. inv_pair. apply clamp_in_unit.
Qed.

Lemma point_entry_in_unit pd p :
  point_entry E pd = Ok (Some p) -> point_in_unit p.
Proof.
  unfold point_entry. intros H.
  step_rbind H. destruct a; [|discriminate].
  step_rbind H. destruct a; [|discriminate].
  step_rbind H. step_rbind H. inv_pair.
  split; cbn; eauto using coord_in_unit.
Qed.

Lemma point_loop_in_unit l : forall acc r,
  Forall point_in_unit acc ->
  point_loop E l acc = Ok r -> Forall point_in_unit r.
Proof.
  induction l as [|pd l IH]; cbn [point_loop]; intros acc r Hacc H.
  - now inv_pair.
  - step_rbind H. eapply IH; [|exact H].
    destruct a as [p|]; [|exact Hacc].
    apply Forall_app; split; [exact Hacc|].
    constructor; [eauto using point_entry_in_unit | constructor].
Qed.

Lemma point_parse_in_unit raw pts :
  point_parse E raw = Ok (Some pts) -> Forall point_in_unit pts.
Proof.
  unfold point_parse. intros H.
  destruct raw; try discriminate.
  - destruct l as [|x [|y [|]]]; try discriminate.
    step_rbind H. step_rbind H. inv_pair.
    repeat constructor; apply clamp_in_unit.
  - destruct l as [|x [|y [|]]]; try discriminate.
    step_rbind H. step_rbind H. inv_pair.
    repeat constructor; apply clamp_in_unit.
  - destruct (dict_get "points" d) as [points_list|]; [|discriminate].
    destruct (truthy points_list); [|discriminate].
    step_rbind H. destruct (0 <? a)%nat; [|discriminate].
    step_rbind H. step_rbind H.
    destruct (nonempty a1); inv_pair.
    eapply point_loop_in_unit; [constructor | eassumption].
Qed.

Lemma detect_entry_in_unit name obj d :
  detect_entry E name obj = Ok (Some d) ->
  detection_in_unit d /\ label d = name /\ confidence d = 1%float.
Proof.
  unfold detect_entry. intros H.
  step_rbind H. destruct a; [|discriminate].
  do 4 step_rbind H. inv_pair.
  split; [|split; reflexivity].
  unfold detection_in_unit; cbn.
  repeat constructor; eauto using coord_in_unit.
Qed.

Lemma detect_loop_all (P : detection -> Prop) name
    (HP : forall obj d, detect_entry E name obj = Ok (Some d) -> P d) l :
  forall acc s r s',
    Forall P acc ->
    detect_loop E name l acc s = (Ok r, s') -> Forall P r.
Proof.
  induction l as [|obj l IH]; cbn [detect_loop]; intros acc s r s' Hacc H.
  - unfold ret in H. now inv_pair.
  - unfold bind at 1 in H.
    destruct (try_except _ _ s) as [[acc'|e] s1] eqn:Htry; [|discriminate].
    eapply IH; [|exact H].
    unfold try_except, bind, lift, ret, display, external in Htry.
    destruct (detect_entry E name obj) as [[d|]|e] eqn:He; inv_pair; auto.
    apply Forall_app; split; [exact Hacc|]. constructor; eauto.
Qed.

Lemma detect_parse_all (P : detection -> Prop) name
    (HP : forall obj d, detect_entry E name obj = Ok (Some d) -> P d) raw s r s' :
  detect_parse E name raw s = (Ok r, s') -> Forall P r.
Proof.
  unfold detect_parse. intros H.
  destruct raw; try (unfold ret in H; inv_pair; constructor).
  destruct (dict_get "objects" d) as [objects_list|];
    [|unfold ret in H; inv_pair; constructor].
  step_bind; [|discriminate].
  eapply detect_loop_all; [exact HP | constructor | exact H].
Qed.

Lemma detect_all (P : detection -> Prop) img name repo max_objects
    (HP : forall obj d, detect_entry E name obj = Ok (Some d) -> P d) s r s' :
  detect E img name repo max_objects s = (Ok r, s') -> Forall P r.
Proof.
  unfold detect. intros H.
  step_bind; [|discriminate]. step_bind; [|discriminate].
  eapply detect_parse_all; [exact HP | exact H].
Qed.

(** C1.  Every coordinate returned by [point] (both axes of every point)
    and by [detect] (the four components of every bounding box) lies in
    [0.0, 1.0], whatever the raw response of the model is. *)
Theorem returned_coordinates_in_unit img name repo max_objects s :
  (forall pts s', point E img name repo s = (Ok (Some pts), s') ->
                  Forall point_in_unit pts) /\
  (forall dets s', detect E img name repo max_objects s = (Ok dets, s') ->
                   Forall detection_in_unit dets).
Proof.
  split.
  - intros pts s' H. unfold point in H.
    step_bind; [|discriminate]. step_bind; [|discriminate].
    unfold lift in H. inv_pair. eauto using point_parse_in_unit.
  - intros dets s' H.
    eapply detect_all; [|exact H].
    intros obj d Hd. eapply detect_entry_in_unit, Hd.
Qed.

End Coordinates.

(** C1, on a sample: the out-of-range point of [Demo.two_points] and the
    boxes of [Demo.one_box_one_partial] come back inside the unit interval. *)
Lemma returned_coordinates_in_unit_witness :
  Forall point_in_unit [(1.0, 0.0); (0.5, 0.6)]%float /\
  Forall detection_in_unit [Detection "cat" [0.0; 0.0; 0.5; 0.5]%float 1.0%float].
Proof.
  destruct (returned_coordinates_in_unit
              (Demo.scripted Demo.two_points Demo.one_box_one_partial)
              Demo.img "cat" "repo" (PInt 10) initial) as [Hp Hd].
  split; [eapply Hp | eapply Hd]; vm_compute; reflexivity.
Defined.

(** ** C2: the dispatcher converts every exception into an error text *)

Section Failure.

Variable E : Env.

Lemma predict_unfold question img repo mode stream use_cache kwargs s :
  predict E question img repo mode stream use_cache kwargs s =
  match dispatch E (chosen_mode question mode) (clean_question question)
          img repo stream use_cache kwargs s with
  | (Ok r, s') => (Ok r, s')
  | (Raise e, s') => (Ok (error_text e), log_event (EvDisplay e "Moondream3") s')
  end.
Proof.
  unfold predict, try_except, chosen_mode.
  destruct mode; destruct (dispatch _ _ _ _ _ _ _ _ _) as [[r|e] s']; reflexivity.
Qed.

Lemma caption_fails e img repo length stream t p mt s :
  model_fails E e ->
  exists e' s', caption E img repo length stream t p mt s = (Raise e', s').
Proof.
  intros (_ & _ & Hc & _). unfold caption.
  step_bind; [|eauto].
  unfold external. rewrite Hc. eauto.
Qed.

Lemma point_fails e img name repo s :
  model_fails E e -> exists e' s', point E img name repo s = (Raise e', s').
Proof.
  intros (_ & _ & _ & Hp & _). unfold point.
  step_bind; [|eauto].
  unfold bind, external. rewrite Hp. eauto.
Qed.

Lemma detect_fails e img name repo max_objects s :
  model_fails E e ->
  exists e' s', detect E img name repo max_objects s = (Raise e', s').
Proof.
  intros (_ & _ & _ & _ & Hd). unfold detect.
  step_bind; [|eauto].
  unfold bind, external. rewrite Hd. eauto.
Qed.

Lemma query_fails e img question repo stream t p mt use_cache s :
  model_fails E e ->
  exists e' s', query E img question repo stream t p mt use_cache s = (Raise e', s').
Proof.
  intros (_ & Hq & _). unfold query.
  step_bind; [|eauto].
  step_bind; [|eauto].
  unfold bind, external. rewrite Hq. eauto.
Qed.

Lemma dispatch_fails e mode question img repo stream use_cache kwargs s :
  model_fails E e ->
  exists e' s',
    dispatch E mode question img repo stream use_cache kwargs s = (Raise e', s').
Proof.
  intros Hf. unfold dispatch.
  repeat match goal with
  | |- context [if ?b then _ else _] => destruct b
  end.
  - unfold bind. destruct (caption_fails e img repo "short" stream None None None s Hf)
      as (e' & s' & ->). eauto.
  - unfold bind. destruct (caption_fails e img repo "long" stream None None None s Hf)
      as (e' & s' & ->). eauto.
  - unfold bind. destruct (caption_fails e img repo "normal" stream None None None s Hf)
      as (e' & s' & ->). eauto.
  - unfold bind.
    destruct (point_fails e img (point_object_name question) repo s Hf)
      as (e' & s' & ->). eauto.
  - unfold bind.
    destruct (detect_fails e img (detect_object_name question) repo
                (default (PInt 10) (dict_get "max_objects" kwargs)) s Hf)
      as (e' & s' & ->). eauto.
  - unfold bind.
    destruct (query_fails e img "Describe this image." repo stream None None None
                use_cache s Hf) as (e' & s' & ->). eauto.
  - unfold bind.
    destruct (query_fails e img question repo stream None None None
                use_cache s Hf) as (e' & s' & ->). eauto.
Qed.

(** C2.  [predict] never raises, whatever the question, image and mode.
    It returns what the dispatch returns; an exception [e] raised during the
    dispatch (invocation or parsing) is reported to the error reporter and
    turned into the text ["Error: " ++ str(e)].  In particular, when every
    capability of the model fails, the result is such a text. *)
Theorem predict_never_raises question img repo mode stream use_cache kwargs s :
  (exists r s',
     predict E question img repo mode stream use_cache kwargs s = (Ok r, s')) /\
  (forall e s1,
     dispatch E (chosen_mode question mode) (clean_question question)
       img repo stream use_cache kwargs s = (Raise e, s1) ->
     predict E question img repo mode stream use_cache kwargs s =
       (Ok (Value (PStr ("Error: " ++ exn_msg e))),
        log_event (EvDisplay e "Moondream3") s1)) /\
  (forall e0, model_fails E e0 ->
     exists e s',
       predict E question img repo mode stream use_cache kwargs s =
         (Ok (Value (PStr ("Error: " ++ exn_msg e))), s') /\
       last (history s') = Some (EvDisplay e "Moondream3")).
Proof.
  rewrite predict_unfold. repeat split.
  - destruct (dispatch _ _ _ _ _ _ _ _ _) as [[r|e] s']; eauto.
  - intros e s1 ->. reflexivity.
  - intros e0 Hf.
    destruct (dispatch_fails e0 (chosen_mode question mode) (clean_question question)
                img repo stream use_cache kwargs s Hf) as (e & s1 & ->).
    exists e, (log_event (EvDisplay e "Moondream3") s1). split; [reflexivity|].
    cbn. apply last_snoc.
Qed.

End Failure.

(** C2, on a sample: with a model that runs out of memory at every call, a
    detection request comes back as an error text. *)
Lemma predict_never_raises_witness :
  fst (predict (Demo.failing Demo.out_of_memory) "detect cars" Demo.img "repo"
         None false false [] initial)
  = Ok (Value (PStr "Error: CUDA out of memory")).
Proof.
  destruct (predict_never_raises (Demo.failing Demo.out_of_memory)
              "detect cars" Demo.img "repo" None false false [] initial)
    as (_ & H & _).
  erewrite H by (vm_compute; reflexivity). reflexivity.
Defined.

(** ** Runs of the invokers once the model is loaded *)

Section Runs.

Variable E : Env.

Lemma point_run img name repo s m s1 :
  load_model E (Some repo) s = (Ok m, s1) ->
  point E img name repo s =
    (rbind (model_point E (history s1) m img name) (point_parse E),
     log_event (EvPoint m img name) s1).
Proof.
  intros Hload. unfold point, bind at 1. rewrite Hload.
  unfold bind, external, lift.
  destruct (model_point E (history s1) m img name); reflexivity.
Qed.

Lemma detect_run img name repo max_objects s m s1 raw :
  load_model E (Some repo) s = (Ok m, s1) ->
  model_detect E (history s1) m img name (detect_settings max_objects) = Ok raw ->
  detect E img name repo max_objects s =
    detect_parse E name raw
      (log_event (EvDetect m img name (detect_settings max_objects)) s1).
Proof.
  intros Hload Hraw. unfold detect, bind at 1. rewrite Hload.
  unfold bind at 1, external. fold (detect_settings max_objects).
  now rewrite Hraw.
Qed.

End Runs.

(** ** C3: the shapes [point] accepts *)

Section PointShapes.

Variable E : Env.

Lemma point_entry_regular entry :
  regular E entry -> point_entry E entry = Ok (as_point E entry).
Proof.
  intros (d & -> & Hnum). unfold point_entry, as_point, coord. cbn.
  unfold dict_has.
  destruct (dict_get "x" d) as [vx|] eqn:Hx; cbn; [|reflexivity].
  destruct (dict_get "y" d) as [vy|] eqn:Hy; cbn; [|reflexivity].
  destruct (Hnum vx vy eq_refl eq_refl) as [[fx ->] [fy ->]]. reflexivity.
Qed.

Lemma point_loop_regular l : forall acc,
  Forall (regular E) l -> point_loop E l acc = Ok (acc ++ omap (as_point E) l)%list.
Proof.
  induction l as [|entry l IH]; intros acc Hl; cbn [point_loop omap list_omap].
  - now rewrite app_nil_r.
  - inversion Hl as [|? ? He Hl']; subst.
    rewrite (point_entry_regular entry He). cbn [rbind].
    rewrite IH by assumption.
    destruct (as_point E entry); [|reflexivity].
    now rewrite <- app_assoc.
Qed.

(** Whenever the processing of an entry returns, it returns what
    [as_point E] says. *)
Lemma point_entry_ok entry o :
  point_entry E entry = Ok o -> o = as_point E entry.
Proof.
  unfold point_entry, as_point, coord. intros H.
  destruct entry as [| | | | s | l | l | d |]; try discriminate H;
    cbn [contains rbind getitem] in H; unfold TypeError in H; cbn [rbind] in H.
  - destruct (Text.contains "x" s); [|now inv_pair].
    destruct (Text.contains "y" s); [discriminate H | now inv_pair].
  - destruct (existsb (is_str "x") l); [|now inv_pair].
    destruct (existsb (is_str "y") l); [discriminate H | now inv_pair].
  - destruct (existsb (is_str "x") l); [|now inv_pair].
    destruct (existsb (is_str "y") l); [discriminate H | now inv_pair].
  - unfold dict_has in H.
    destruct (dict_get "x" d) as [vx|]; [|now inv_pair].
    destruct (dict_get "y" d) as [vy|]; [|now inv_pair].
    cbn [rbind] in H.
    destruct (to_float (float_of_str E) vx); cbn [rbind] in H; [|discriminate H].
    destruct (to_float (float_of_str E) vy); cbn [rbind] in H; [|discriminate H].
    now inv_pair.
Qed.

Lemma point_loop_ok l : forall acc r,
  point_loop E l acc = Ok r -> r = (acc ++ omap (as_point E) l)%list.
Proof.
  induction l as [|entry l IH]; intros acc r H; cbn [point_loop omap list_omap] in *.
  - inv_pair. now rewrite app_nil_r.
  - step_rbind H. apply point_entry_ok in Hr. subst a.
    apply IH in H. subst r.
    destruct (as_point E entry); [|reflexivity].
    now rewrite <- app_assoc.
Qed.

Lemma point_parse_ok d points_list l r :
  dict_get "points" d = Some points_list ->
  points_list = PList l \/ points_list = PTuple l ->
  point_parse E (PDict d) = Ok r ->
  r = (let points := omap (as_point E) l in
       if nonempty points then Some points else None).
Proof.
  intros Hd Hseq H. unfold point_parse in H. rewrite Hd in H.
  destruct l as [|entry l].
  - destruct Hseq as [-> | ->]; cbn in H; now inv_pair.
  - destruct Hseq as [-> | ->];
      cbn [truthy len iter rbind Nat.ltb Nat.leb length] in H;
      step_rbind H; apply point_loop_ok in Hr; subst a; inv_pair; reflexivity.
Qed.

Lemma point_parse_points d points_list l :
  dict_get "points" d = Some points_list ->
  points_list = PList l \/ points_list = PTuple l ->
  Forall (regular E) l ->
  point_parse E (PDict d) =
    Ok (let points := omap (as_point E) l in
        if nonempty points then Some points else None).
Proof.
  intros Hd Hseq Hl. unfold point_parse. rewrite Hd.
  destruct l as [|entry l].
  - destruct Hseq as [-> | ->]; reflexivity.
  - assert (Hloop := point_loop_regular (entry :: l) [] Hl).
    destruct Hseq as [-> | ->]; cbn [truthy len iter rbind Nat.ltb Nat.leb length];
      rewrite Hloop; reflexivity.
Qed.

(** C3.  After the model call, [point] reads the raw result as one of
    three shapes.
    - A record with a [points] sequence: every entry with both [x] and [y]
      becomes a clamped point, in the order of the response, the others are
      dropped; the list is returned when it is not empty, [None] otherwise.
      This is what the parsing returns whenever it returns, and it returns
      whenever the entries are of the documented form.
    - A sequence of two numbers: the single clamped point [(x, y)].
    - Anything else: [None].
    The two sample responses give [[(1.0, 0.0), (0.5, 0.6)]] and [None]. *)
Theorem point_parse_shapes :
  (forall img name repo s m s1,
     load_model E (Some repo) s = (Ok m, s1) ->
     point E img name repo s =
       (rbind (model_point E (history s1) m img name) (point_parse E),
        log_event (EvPoint m img name) s1)) /\
  (forall d points_list l,
     dict_get "points" d = Some points_list ->
     points_list = PList l \/ points_list = PTuple l ->
     let claimed := (let points := omap (as_point E) l in
                     if nonempty points then Some points else None) in
     (forall r, point_parse E (PDict d) = Ok r -> r = claimed) /\
     (Forall (regular E) l -> point_parse E (PDict d) = Ok claimed)) /\
  point_parse E Demo.two_points = Ok (Some [(1.0, 0.0); (0.5, 0.6)]%float) /\
  point_parse E Demo.point_without_y = Ok None /\
  (forall vx vy x y,
     to_float (float_of_str E) vx = Ok x ->
     to_float (float_of_str E) vy = Ok y ->
     point_parse E (PList [vx; vy]) = Ok (Some [(clamp x, clamp y)]) /\
     point_parse E (PTuple [vx; vy]) = Ok (Some [(clamp x, clamp y)])) /\
  (forall raw, other_shape raw -> point_parse E raw = Ok None).
Proof.
  split; [intros; now apply point_run|].
  split.
  { intros d points_list l Hd Hseq claimed. split.
    - intros r. now apply point_parse_ok with (points_list := points_list).
    - now apply point_parse_points with (points_list := points_list). }
  split; [reflexivity|]. split; [reflexivity|]. split.
  - intros vx vy x y Hx Hy. cbn. rewrite Hx, Hy. split; reflexivity.
  - intros raw Hraw. destruct raw; cbn in *; try reflexivity.
    + destruct l as [|? [|? [|]]]; cbn in *; congruence.
    + destruct l as [|? [|? [|]]]; cbn in *; congruence.
    + now rewrite Hraw.
Qed.

End PointShapes.

(** C3, on a sample: three entries, the middle one without [y]; a pair of
    an integer and a boolean. *)
Lemma point_parse_shapes_witness :
  let entries := [PDict [("x", PInt 7); ("y", PFloat 0.25)];
                  PDict [("x", PFloat 0.5)];
                  PDict [("y", PInt (-3)); ("x", PFloat 0.75)]] in
  point_parse (Demo.scripted PNone PNone) (PDict [("points", PTuple entries)])
  = Ok (Some [(1.0, 0.25); (0.75, 0.0)]%float) /\
  point_parse (Demo.scripted PNone PNone) (PList [PInt 2; PBool false])
  = Ok (Some [(1.0, 0.0)]%float).
Proof.
  intros entries.
  destruct (point_parse_shapes (Demo.scripted PNone PNone))
    as (_ & Ha & _ & _ & Hb & _).
  split.
  - destruct (Ha [("points", PTuple entries)] (PTuple entries) entries
                eq_refl (or_intror eq_refl)) as [_ Htotal].
    rewrite Htotal; [reflexivity|].
    repeat constructor; eexists; (split; [reflexivity|]);
      intros vx vy Hx Hy; vm_compute in Hx, Hy; inv_pair;
      try discriminate; split; eexists; reflexivity.
  - destruct (Hb (PInt 2) (PBool false) 2.0%float 0.0%float eq_refl eq_refl)
      as [H _].
    exact H.
Defined.

(** ** C4: the entries [detect] keeps, skips and reports *)

Section DetectEntries.

Variable E : Env.

(** What the body of the [try] yields agrees with [as_detection E]: the
    detection when it returns one, none when it skips or raises. *)
Lemma detect_entry_spec name entry :
  match detect_entry E name entry with
  | Ok o => o = as_detection E name entry
  | Raise _ => as_detection E name entry = None
  end.
Proof.
  unfold detect_entry.
  destruct entry as [| | | | s | l | l | d |];
    try reflexivity.
  - (* str *)
    destruct (has_all _ _) as [[]|]; cbn; reflexivity.
  - destruct (has_all _ _) as [[]|]; cbn; reflexivity.
  - destruct (has_all _ _) as [[]|]; cbn; reflexivity.
  - cbn [has_all contains rbind as_detection]. unfold dict_has, coord, getitem.
    destruct (dict_get "x_min" d) as [v1|], (dict_get "y_min" d) as [v2|],
             (dict_get "x_max" d) as [v3|], (dict_get "y_max" d) as [v4|];
      cbn [rbind]; try reflexivity.
    destruct (to_float (float_of_str E) v1) eqn:H1,
             (to_float (float_of_str E) v2) eqn:H2,
             (to_float (float_of_str E) v3) eqn:H3,
             (to_float (float_of_str E) v4) eqn:H4;
      repeat (progress (cbn [rbind]; rewrite ?H1, ?H2, ?H3, ?H4));
      reflexivity.
Qed.

Lemma detect_loop_spec name l : forall acc s,
  detect_loop E name l acc s =
    (Ok (acc ++ omap (as_detection E name) l)%list,
     with_history (history s ++ reports (omap (entry_error E name) l)) s).
Proof.
  induction l as [|entry l IH]; intros acc s; cbn [detect_loop omap list_omap].
  - unfold ret, with_history, reports. cbn. rewrite !app_nil_r. now destruct s.
  - unfold bind at 1, try_except, bind at 1, lift, ret.
    pose proof (detect_entry_spec name entry) as Hspec.
    unfold entry_error.
    destruct (detect_entry E name entry) as [o|e].
    + subst o. rewrite IH. destruct (as_detection E name entry); cbn.
      * now rewrite <- app_assoc.
      * reflexivity.
    + rewrite Hspec. unfold display, bind, external, ret. rewrite IH.
      cbn. unfold with_history, log_event. cbn. now rewrite <- app_assoc.
Qed.

Lemma lacks_field_skipped name d :
  lacks_field d = true ->
  detect_entry E name (PDict d) = Ok None.
Proof.
  unfold lacks_field, detect_entry. cbn [has_all contains rbind].
  destruct (dict_has "x_min" d); cbn; [|reflexivity].
  destruct (dict_has "y_min" d); cbn; [|reflexivity].
  destruct (dict_has "x_max" d); cbn; [|reflexivity].
  destruct (dict_has "y_max" d); cbn; [discriminate|reflexivity].
Qed.

Lemma not_numeric_raises name d :
  not_numeric E d -> exists e, detect_entry E name (PDict d) = Raise e.
Proof.
  intros (v1 & v2 & v3 & v4 & H1 & H2 & H3 & H4 & e & He).
  unfold detect_entry, coord. cbn [has_all contains rbind getitem].
  unfold dict_has. rewrite H1, H2, H3, H4. cbn [rbind].
  destruct (to_float _ v1); cbn [rbind]; [|eauto].
  destruct (to_float _ v2); cbn [rbind]; [|eauto].
  destruct (to_float _ v3); cbn [rbind]; [|eauto].
  destruct (to_float _ v4); cbn [rbind]; [|eauto].
  destruct He as [He|[He|[He|He]]]; discriminate He.
Qed.

Lemma as_detection_inv name entry det :
  as_detection E name entry = Some det ->
  exists x1 y1 x2 y2,
    det = Detection name [clamp x1; clamp y1; clamp x2; clamp y2] 1.0%float.
Proof.
  unfold as_detection. intros H.
  repeat match type of H with
  | context [match ?x with _ => _ end] => destruct x; try discriminate H
  end.
  inv_pair. eauto.
Qed.

End DetectEntries.

(** C4 (amended).  Once the model is loaded and [model.detect] has returned
    a record whose [objects] is a sequence, [detect] returns, in the order
    of the response, one detection for every entry that is a record with
    the four fields as numbers: labelled with the queried name, with the
    four clamped coordinates and confidence 1.0.  Every other entry is
    skipped and the loop goes on: an entry whose processing raises is
    reported to the error reporter under "Moondream3 detect parsing", a
    record that lacks a field is skipped without a report. *)
Theorem detect_entries (E : Env) img name repo max_objects s m s1 d objects l :
  load_model E (Some repo) s = (Ok m, s1) ->
  model_detect E (history s1) m img name (detect_settings max_objects)
    = Ok (PDict d) ->
  dict_get "objects" d = Some objects ->
  objects = PList l \/ objects = PTuple l ->
  let s2 := log_event (EvDetect m img name (detect_settings max_objects)) s1 in
  detect E img name repo max_objects s =
    (Ok (omap (as_detection E name) l),
     with_history (history s2 ++ reports (omap (entry_error E name) l)) s2) /\
  (forall entry det,
     as_detection E name entry = Some det ->
     label det = name /\ confidence det = 1.0%float /\
     exists x1 y1 x2 y2, bbox det = [clamp x1; clamp y1; clamp x2; clamp y2]) /\
  (forall fields,
     lacks_field fields = true ->
     as_detection E name (PDict fields) = None /\
     entry_error E name (PDict fields) = None) /\
  (forall fields,
     not_numeric E fields ->
     as_detection E name (PDict fields) = None /\
     exists e, entry_error E name (PDict fields) = Some e).
Proof.
  intros Hload Hraw Hobjects Hseq s2. repeat split.
  - rewrite (detect_run E img name repo max_objects s m s1 (PDict d) Hload Hraw).
    fold s2. unfold detect_parse. rewrite Hobjects.
    unfold bind, lift.
    destruct Hseq as [-> | ->]; cbn [iter]; apply detect_loop_spec.
  - destruct (as_detection_inv E name entry det H) as (? & ? & ? & ? & ->).
    reflexivity.
  - destruct (as_detection_inv E name entry det H) as (? & ? & ? & ? & ->).
    reflexivity.
  - destruct (as_detection_inv E name entry det H) as (? & ? & ? & ? & ->).
    cbn. eauto.
  - pose proof (detect_entry_spec E name (PDict fields)) as Hspec.
    rewrite (lacks_field_skipped E name fields H) in Hspec. now symmetry.
  - unfold entry_error. now rewrite (lacks_field_skipped E name fields H).
  - pose proof (detect_entry_spec E name (PDict fields)) as Hspec.
    destruct (not_numeric_raises E name fields H) as [e He].
    now rewrite He in Hspec.
  - destruct (not_numeric_raises E name fields H) as [e He].
    exists e. unfold entry_error. now rewrite He.
Qed.

(** C4, on the sample of the specification: the complete entry is kept under
    the name "cat", the partial one is skipped. *)
Lemma detect_entries_witness :
  fst (detect (Demo.scripted PNone Demo.one_box_one_partial)
         Demo.img "cat" "repo" (PInt 10) initial)
  = Ok [Detection "cat" [0.0; 0.0; 0.5; 0.5]%float 1.0%float].
Proof.
  pose (E := Demo.scripted PNone Demo.one_box_one_partial).
  pose (loaded := snd (load_model E (Some "repo") initial)).
  destruct (detect_entries E Demo.img "cat" "repo" (PInt 10) initial 1%N loaded
              [("objects",
                PList [PDict [("x_min", PInt 0); ("y_min", PInt 0);
                              ("x_max", PFloat 0.5); ("y_max", PFloat 0.5)];
                       PDict [("x_min", PInt 0)]])]
              (PList [PDict [("x_min", PInt 0); ("y_min", PInt 0);
                             ("x_max", PFloat 0.5); ("y_max", PFloat 0.5)];
                      PDict [("x_min", PInt 0)]])
              [PDict [("x_min", PInt 0); ("y_min", PInt 0);
                      ("x_max", PFloat 0.5); ("y_max", PFloat 0.5)];
               PDict [("x_min", PInt 0)]]
              eq_refl eq_refl eq_refl (or_introl eq_refl)) as [H _].
  fold E. rewrite H. reflexivity.
Defined.

(** C4 as stated fails on the sample of the specification: the entry that
    lacks three fields is skipped, and nothing is reported for it. *)
Lemma partial_entry_not_reported :
  exists dets s',
    detect (Demo.scripted PNone Demo.one_box_one_partial)
      Demo.img "cat" "repo" (PInt 10) initial = (Ok dets, s') /\
    length dets = 1%nat /\
    forall e label, ~ In (EvDisplay e label) (history s').
Proof.
  eexists _, _. split; [vm_compute; reflexivity|].
  split; [reflexivity|].
  intros e label Hin. cbn in Hin.
  repeat (destruct Hin as [Hin|Hin]; [discriminate Hin|]).
  exact Hin.
Qed.

(** ** What the dispatcher sends to the model *)

Lemma extends_refl s : extends s s.
Proof. exists []. now rewrite app_nil_r. Qed.

Lemma extends_trans s1 s2 s3 : extends s1 s2 -> extends s2 s3 -> extends s1 s3.
Proof.
  intros [t1 H1] [t2 H2]. exists (t1 ++ t2)%list.
  now rewrite H2, H1, app_assoc.
Qed.

Lemma extends_log ev s : extends s (log_event ev s).
Proof. now exists [ev]. Qed.

Create HintDb frame.
#[local] Hint Resolve extends_refl extends_trans extends_log : frame.
#[local] Hint Resolve keeps_ret keeps_raise keeps_lift keeps_get keeps_external
  keeps_bind keeps_try keeps_when : frame.

Section Calls.

Variable E : Env.

Lemma detect_loop_extends name l : forall acc,
  keeps extends (detect_loop E name l acc).
Proof.
  induction l as [|obj l IH]; intros acc; cbn [detect_loop].
  - auto with frame.
  - apply keeps_bind; [eauto with frame | | auto].
    apply keeps_try; [eauto with frame | | ]; unfold display;
      intros; eauto 10 with frame.
Qed.

Lemma detect_parse_extends name raw : keeps extends (detect_parse E name raw).
Proof.
  unfold detect_parse.
  destruct raw; auto with frame.
  destruct (dict_get "objects" d); auto with frame.
  apply keeps_bind; eauto using detect_loop_extends with frame.
Qed.

(** In point mode the model is asked for [point_object_name] of the cleaned
    question. *)
Lemma predict_point_call question img repo mode stream use_cache kwargs s m s1 :
  chosen_mode question mode = "point" ->
  load_model E (Some repo) s = (Ok m, s1) ->
  exists r s' tail,
    predict E question img repo mode stream use_cache kwargs s = (Ok r, s') /\
    history s' =
      (history s1
       ++ EvPoint m img (point_object_name (clean_question question)) :: tail)%list.
Proof.
  intros Hmode Hload. rewrite predict_unfold, Hmode.
  unfold dispatch. cbn [mode_is String.eqb Ascii.eqb Bool.eqb orb].
  unfold bind at 1.
  rewrite (point_run E img _ repo s m s1 Hload).
  destruct (rbind _ _) as [[points|]|e].
  - destruct (nonempty points); unfold ret; eexists _, _, []; split; reflexivity.
  - unfold ret; eexists _, _, []; split; reflexivity.
  - eexists _, _, [_]. split; [reflexivity|]. cbn. now rewrite <- app_assoc.
Qed.

(** In detect mode the model is asked for [detect_object_name] of the
    cleaned question. *)
Lemma predict_detect_call question img repo mode stream use_cache kwargs s m s1 :
  chosen_mode question mode = "detect" ->
  load_model E (Some repo) s = (Ok m, s1) ->
  exists r s' tail,
    predict E question img repo mode stream use_cache kwargs s = (Ok r, s') /\
    history s' =
      (history s1
       ++ EvDetect m img (detect_object_name (clean_question question))
            (detect_settings (default (PInt 10) (dict_get "max_objects" kwargs)))
          :: tail)%list.
Proof.
  intros Hmode Hload. rewrite predict_unfold, Hmode.
  unfold dispatch. cbn [mode_is String.eqb Ascii.eqb Bool.eqb orb].
  set (name := detect_object_name (clean_question question)).
  set (max_objects := default (PInt 10) (dict_get "max_objects" kwargs)).
  unfold bind at 1, detect at 1, bind at 1. rewrite Hload.
  unfold bind at 1, external at 1. fold (detect_settings max_objects).
  remember (log_event (EvDetect m img name (detect_settings max_objects)) s1)
    as s2 eqn:Es2.
  assert (Hs2 : history s2 = (history s1 ++ [EvDetect m img name
                                (detect_settings max_objects)])%list)
    by (subst s2; reflexivity).
  clear Es2.
  destruct (model_detect E (history s1) m img name (detect_settings max_objects))
    as [raw|e].
  - destruct (detect_parse E name raw s2) as [[results|e] s3] eqn:Hparse;
      destruct (detect_parse_extends name raw s2 _ s3 Hparse) as [tail Htail].
    + destruct (nonempty results).
      * unfold bind, lift, ret.
        destruct (detect_lines results).
        -- eexists _, _, tail. split; [reflexivity|].
           rewrite Htail, Hs2. now rewrite <- app_assoc.
        -- eexists _, _, (tail ++ [_])%list. split; [reflexivity|].
           cbn. rewrite Htail, Hs2. now rewrite <- !app_assoc.
      * unfold ret. eexists _, _, tail. split; [reflexivity|].
        rewrite Htail, Hs2. now rewrite <- app_assoc.
    + eexists _, _, (tail ++ [_])%list. split; [reflexivity|].
      cbn. rewrite Htail, Hs2. now rewrite <- !app_assoc.
  - eexists _, _, [_]. split; [reflexivity|].
    cbn. rewrite Hs2. now rewrite <- !app_assoc.
Qed.

End Calls.

(** ** C5: classification of the question *)

Lemma literal_caption question :
  String.eqb question "CAPTION" || String.eqb question "caption" = true ->
  Text.contains "caption" (lower question) = true.
Proof.
  intros H. apply orb_true_iff in H.
  destruct H as [H|H]; apply String.eqb_eq in H; subst; reflexivity.
Qed.

Lemma auto_mode_classify question :
  auto_mode question = mode_name (classify question).
Proof.
  unfold auto_mode, classify, caption_length, any_cue, rules.
  cbn [existsb first_match any_cue].
  assert (Hlit := literal_caption question).
  destruct (String.eqb question "CAPTION" || String.eqb question "caption");
    [rewrite Hlit by reflexivity|]; clear Hlit; cbn [orb];
    repeat (match goal with
            | |- context [Text.contains ?cue (lower question)] =>
                destruct (Text.contains cue (lower question))
            | |- context [if String.eqb ?a ?b then _ else _] =>
                destruct (String.eqb a b)
            end; cbn [orb]; try reflexivity).
Qed.

Lemma clean_question_cleaned question :
  clean_question question = Wording.cleaned question.
Proof.
  unfold clean_question.
  induction question as [|c question IH]; [reflexivity|].
  cbn [replace_char Wording.cleaned].
  destruct (Ascii.eqb c "<") eqn:Hlt; cbn [orb append]; [exact IH|].
  cbn [replace_char].
  destruct (Ascii.eqb c ">") eqn:Hgt; cbn [append]; [exact IH|].
  cbn [replace_char].
  destruct (Ascii.eqb c "_"); cbn [append]; now rewrite IH.
Qed.

Lemma sub_punct_wording text :
  sub_punct text = Wording.without_punctuation text.
Proof.
  unfold Wording.without_punctuation.
  induction text as [|c text IH]; [reflexivity|].
  cbn [sub_punct list_ascii_of_string List.filter].
  replace (existsb (Ascii.eqb c) Wording.punctuation) with (is_punct c).
  - destruct (is_punct c); cbn [negb string_of_list_ascii]; now rewrite IH.
  - unfold is_punct, Wording.punctuation. cbn [existsb].
    now rewrite orb_false_r, !orb_assoc.
Qed.

Lemma lstrip_list text :
  list_ascii_of_string (lstrip text)
  = Wording.skip_spaces (list_ascii_of_string text).
Proof.
  induction text as [|c text IH]; [reflexivity|].
  cbn [lstrip list_ascii_of_string Wording.skip_spaces].
  now destruct (is_space c).
Qed.

Lemma lstrip_wording text : lstrip text = Wording.trimmed_left text.
Proof.
  unfold Wording.trimmed_left.
  now rewrite <- lstrip_list, string_of_list_ascii_of_string.
Qed.

Lemma skip_spaces_snoc l c :
  Wording.skip_spaces (l ++ [c])
  = match Wording.skip_spaces l with
    | [] => if is_space c then [] else [c]
    | r => (r ++ [c])%list
    end.
Proof.
  induction l as [|a l IH]; [cbn; now destruct (is_space c)|].
  cbn [app Wording.skip_spaces].
  destruct (is_space a); [exact IH | reflexivity].
Qed.

Lemma rstrip_list text :
  list_ascii_of_string (rstrip text)
  = rev (Wording.skip_spaces (rev (list_ascii_of_string text))).
Proof.
  induction text as [|c text IH]; [reflexivity|].
  cbn [rstrip list_ascii_of_string rev].
  rewrite skip_spaces_snoc.
  destruct (Wording.skip_spaces (rev (list_ascii_of_string text))) as [|x k].
  - cbn [rev] in IH. destruct (rstrip text); [|discriminate IH].
    now destruct (is_space c).
  - destruct (rstrip text) as [|y r].
    + cbn [rev list_ascii_of_string] in IH. destruct (rev k); discriminate IH.
    + change (list_ascii_of_string (String c (String y r)))
        with (c :: list_ascii_of_string (String y r)).
      rewrite IH. now rewrite rev_app_distr.
Qed.

Lemma strip_wording text : strip text = Wording.trimmed text.
Proof.
  unfold strip, Wording.trimmed.
  now rewrite <- lstrip_list, <- rstrip_list, string_of_list_ascii_of_string.
Qed.

Lemma sub_leading_the_wording text :
  sub_leading_the text = Wording.without_article text.
Proof.
  unfold sub_leading_the, Wording.without_article.
  rewrite <- lstrip_wording.
  destruct (lstrip text) as [|t [|h [|e [|sp rest]]]];
    cbn [starts_with_ci Text.drop lower String.eqb];
    change (lower_char "t") with "t"%char;
    change (lower_char "h") with "h"%char;
    change (lower_char "e") with "e"%char;
    rewrite ?andb_false_r; try reflexivity.
  - now destruct (_ && _).
  - rewrite <- lstrip_wording. rewrite andb_true_r.
    destruct (Ascii.eqb "t" (lower_char t)), (Ascii.eqb "h" (lower_char h)),
      (Ascii.eqb "e" (lower_char e)), (is_space sp); reflexivity.
Qed.

Lemma nth_char_get n : forall s, nth_char n s = String.get n s.
Proof.
  unfold nth_char.
  induction n as [|n IH]; intros [|c s]; cbn [Text.drop head String.get];
    try reflexivity.
  apply IH.
Qed.

Lemma head_get s : head s = String.get 0 s.
Proof. now destruct s. Qed.

Lemma starts_with_ci_prefix p : forall s,
  starts_with_ci p s
  = (String.length p <=? String.length s)%nat
    && String.eqb (lower p) (lower (String.substring 0 (String.length p) s)).
Proof.
  induction p as [|a p IH]; intros s.
  - destruct s; reflexivity.
  - destruct s as [|b s]; [reflexivity|].
    cbn [starts_with_ci String.length String.substring lower String.eqb].
    rewrite IH. change (S (String.length p) <=? S (String.length s))%nat
      with (String.length p <=? String.length s)%nat.
    destruct (Ascii.eqb (lower_char a) (lower_char b)); [reflexivity|].
    now rewrite andb_false_r.
Qed.

Lemma phrase_at_wording phrase prev s :
  phrase_at phrase prev s = Wording.occurs_here phrase prev s.
Proof.
  unfold phrase_at, Wording.occurs_here. cbv zeta.
  rewrite starts_with_ci_prefix, !nth_char_get, head_get.
  assert (Hne : negb (String.eqb phrase "") = (0 <? String.length phrase)%nat)
    by now destruct phrase.
  rewrite Hne.
  destruct (0 <? String.length phrase)%nat,
    (String.length phrase <=? String.length s)%nat,
    (String.eqb (lower phrase)
       (lower (String.substring 0 (String.length phrase) s))),
    (word_boundary prev (String.get 0 s)); reflexivity.
Qed.

Lemma drop_length n : forall s,
  (String.length (Text.drop n s) <= String.length s)%nat.
Proof.
  induction n as [|n IH]; intros [|c s]; cbn [Text.drop String.length]; try lia.
  specialize (IH s). lia.
Qed.

(** The characters that the scan has still to pass over are dropped. *)
Lemma scan_skip phrase : forall k prev s,
  (k <= String.length s)%nat ->
  sub_phrase_scan phrase prev k s
  = sub_phrase_scan phrase
      (match k with O => prev | S j => String.get j s end) 0 (Text.drop k s).
Proof.
  induction k as [|k IH]; intros prev s Hk.
  - now destruct s.
  - destruct s as [|c s]; [cbn in Hk; lia|].
    cbn [sub_phrase_scan Text.drop String.get].
    rewrite IH by (cbn in Hk; lia).
    now destruct k.
Qed.

Lemma scan_deleted phrase : forall steps prev s,
  (String.length s <= steps)%nat ->
  sub_phrase_scan phrase prev 0 s = Wording.deleted steps phrase prev s.
Proof.
  induction steps as [|steps IH]; intros prev s Hlen.
  - destruct s; [reflexivity | cbn in Hlen; lia].
  - destruct s as [|c s]; [reflexivity|].
    cbn [sub_phrase_scan Wording.deleted].
    rewrite phrase_at_wording.
    destruct (Wording.occurs_here phrase prev (String c s)) eqn:Hocc.
    + unfold Wording.occurs_here in Hocc. cbv zeta in Hocc.
      repeat (apply andb_true_iff in Hocc; destruct Hocc as [Hocc ?]).
      apply Nat.ltb_lt in Hocc.
      match goal with H : (_ <=? _)%nat = true |- _ => apply Nat.leb_le in H end.
      cbn [String.length] in *.
      destruct (String.length phrase) as [|n] eqn:Hn; [lia|].
      cbn [Nat.sub]. rewrite Nat.sub_0_r.
      rewrite scan_skip by lia.
      cbn [Text.drop].
      rewrite <- IH by (pose proof (drop_length n s); lia).
      now destruct n.
    + rewrite IH by (cbn in Hlen; lia). reflexivity.
Qed.

Lemma sub_phrase_wording phrase text :
  sub_phrase phrase text = Wording.without_phrase phrase text.
Proof. apply scan_deleted. lia. Qed.

Lemma strip_phrases_wording phrases : forall text,
  strip_phrases phrases text = Wording.without_phrases phrases text.
Proof.
  unfold strip_phrases.
  induction phrases as [|phrase phrases IH]; intros text; [reflexivity|].
  cbn [fold_left Wording.without_phrases].
  now rewrite IH, sub_phrase_wording.
Qed.

Lemma extract_wording phrases text :
  extract phrases text = Wording.object_name phrases text.
Proof.
  unfold extract, Wording.object_name.
  now rewrite strip_phrases_wording, sub_punct_wording, strip_wording,
    sub_leading_the_wording.
Qed.

Lemma split_and_first_wording text :
  split_and_first text
  = match Wording.first_and text with
    | Some i => String.substring 0 i text
    | None => text
    end.
Proof.
  induction text as [|c text IH]; [reflexivity|].
  cbn [split_and_first Wording.first_and].
  destruct (ws_and_ws_at (String c text)); [reflexivity|].
  rewrite IH. now destruct (Wording.first_and text).
Qed.

Lemma detect_object_name_wording text :
  detect_object_name text
  = Wording.first_object (Wording.object_name detect_phrases text).
Proof.
  unfold detect_object_name, Wording.first_object.
  rewrite <- extract_wording.
  destruct (Text.contains " and " (lower (extract detect_phrases text)));
    [|reflexivity].
  rewrite strip_wording, split_and_first_wording.
  now destruct (Wording.first_and (extract detect_phrases text)).
Qed.

(** C5.  Without an explicit mode, [predict] dispatches on the mode given by
    the priority-ordered rules applied to the lowered text of the question
    taken without its angle brackets and with spaces for its underscores:
    caption cues, then point cues, then detect cues, else query.  In point
    mode the name sent to the model is that text without the whole-word
    occurrences of the trigger phrases in any letter case, without the
    punctuation [?.!,], without whitespace at either end and without one
    leading "the"; in detect mode it is the name made so from the detect
    phrases, cut at its first "and".  The four sample questions give short
    caption, long caption, point at "dog" and detect "cars". *)
Theorem classification_rules (E : Env) :
  (forall question,
     chosen_mode question None
     = mode_name (classify (Wording.cleaned question))) /\
  (forall question img repo stream use_cache kwargs s m s1,
     classify (Wording.cleaned question) = PointMode ->
     load_model E (Some repo) s = (Ok m, s1) ->
     exists r s' tail,
       predict E question img repo None stream use_cache kwargs s = (Ok r, s') /\
       history s' =
         (history s1
          ++ EvPoint m img
               (Wording.object_name ["point at"; "where is"; "locate"; "find"]
                  (Wording.cleaned question))
             :: tail)%list) /\
  (forall question img repo stream use_cache kwargs s m s1,
     classify (Wording.cleaned question) = DetectMode ->
     load_model E (Some repo) s = (Ok m, s1) ->
     exists r s' tail,
       predict E question img repo None stream use_cache kwargs s = (Ok r, s') /\
       history s' =
         (history s1
          ++ EvDetect m img
               (Wording.first_object
                  (Wording.object_name
                     ["detect"; "find all"; "bounding box"; "bbox"; "find"]
                     (Wording.cleaned question)))
               (detect_settings (default (PInt 10) (dict_get "max_objects" kwargs)))
             :: tail)%list) /\
  classify (Wording.cleaned "CAPTION") = CaptionShort /\
  classify (Wording.cleaned "a very long detailed caption please") = CaptionLong /\
  (classify (Wording.cleaned "where is the dog?") = PointMode /\
   Wording.object_name ["point at"; "where is"; "locate"; "find"]
     (Wording.cleaned "where is the dog?") = "dog") /\
  (classify (Wording.cleaned "detect cars and trucks") = DetectMode /\
   Wording.first_object
     (Wording.object_name ["detect"; "find all"; "bounding box"; "bbox"; "find"]
        (Wording.cleaned "detect cars and trucks")) = "cars").
Proof.
  assert (Hmode : forall question,
            chosen_mode question None
            = mode_name (classify (Wording.cleaned question))).
  { intros question. rewrite <- clean_question_cleaned.
    apply auto_mode_classify. }
  split; [exact Hmode|]. split; [|split].
  - intros question img repo stream use_cache kwargs s m s1 Hc Hload.
    change ["point at"; "where is"; "locate"; "find"] with point_phrases.
    rewrite <- extract_wording, <- clean_question_cleaned.
    apply predict_point_call; [|exact Hload].
    now rewrite Hmode, Hc.
  - intros question img repo stream use_cache kwargs s m s1 Hc Hload.
    change ["detect"; "find all"; "bounding box"; "bbox"; "find"]
      with detect_phrases.
    rewrite <- detect_object_name_wording, <- clean_question_cleaned.
    apply predict_detect_call; [|exact Hload].
    now rewrite Hmode, Hc.
  - repeat split; vm_compute; reflexivity.
Qed.

(** C5, on a sample: the question "where is the dog?" reaches the model as
    a point request for "dog", "detect cars and trucks" as a detect request
    for "cars". *)
Lemma classification_rules_witness :
  (exists tail,
     history (snd (predict (Demo.scripted Demo.two_points PNone)
                     "where is the dog?" Demo.img "repo" None false false []
                     initial))
     = ([EvFromPretrained (Some "repo"); EvSetup (ModelEval 1%N);
         EvSetup TorchGC; EvSetup (MoveModel 1%N)]
        ++ EvPoint 1%N Demo.img "dog" :: tail)%list) /\
  (exists tail,
     history (snd (predict (Demo.scripted PNone Demo.one_box_one_partial)
                     "detect cars and trucks" Demo.img "repo" None false false []
                     initial))
     = ([EvFromPretrained (Some "repo"); EvSetup (ModelEval 1%N);
         EvSetup TorchGC; EvSetup (MoveModel 1%N)]
        ++ EvDetect 1%N Demo.img "cars" (detect_settings (PInt 10)) :: tail)%list).
Proof.
  split.
  - destruct (classification_rules (Demo.scripted Demo.two_points PNone))
      as (_ & Hp & _).
    destruct (Hp "where is the dog?" Demo.img "repo" false false [] initial 1%N
                (snd (load_model (Demo.scripted Demo.two_points PNone)
                        (Some "repo") initial))
                eq_refl eq_refl) as (r & s' & tail & Hrun & Hhist).
    exists tail. rewrite Hrun. exact Hhist.
  - destruct (classification_rules (Demo.scripted PNone Demo.one_box_one_partial))
      as (_ & _ & Hd & _).
    destruct (Hd "detect cars and trucks" Demo.img "repo" false false [] initial 1%N
                (snd (load_model (Demo.scripted PNone Demo.one_box_one_partial)
                        (Some "repo") initial))
                eq_refl eq_refl) as (r & s' & tail & Hrun & Hhist).
    exists tail. rewrite Hrun. exact Hhist.
Defined.

(** Letters and whitespace beyond ASCII count as such: "find" followed by
    U+00E9 is one word and stays, a markup question is cleaned before it is
    read, and a no-break space delimits "and" as a space does. *)
Lemma beyond_ascii :
  point_object_name ("find" ++ Demo.e_acute) = "find" ++ Demo.e_acute /\
  point_object_name (clean_question "<where_is_the_dog?>") = "dog" /\
  detect_object_name ("detect cats" ++ Demo.no_break_space ++ "and dogs and birds")
  = "cats".
Proof. repeat split; vm_compute; reflexivity. Qed.

(** ** C6: the effective settings *)

Section Settings.

Variable E : Env.

Lemma default_or_none (m : gmap string pyval) :
  default ∅ (if decide (m = ∅) then None else Some m) = m.
Proof. destruct (decide (m = ∅)) as [->|]; reflexivity. Qed.

Lemma get_settings_lookup key :
  default ∅ (get_settings E) !! key = global_value E key.
Proof.
  unfold get_settings. rewrite default_or_none. unfold global_value.
  destruct (0 <? interrogate_vlm_max_length (opts E)),
           (float_pos (interrogate_vlm_temperature (opts E))),
           (float_pos (interrogate_vlm_top_p (opts E)));
    repeat case_decide; simplify_map_eq; reflexivity.
Qed.

Lemma override_lookup key' value (m : gmap string pyval) key :
  override key' value m !! key =
    match value with
    | Some v => if decide (key = key') then Some v else m !! key
    | None => m !! key
    end.
Proof.
  unfold override. destruct value as [v|]; [|reflexivity].
  case_decide; simplify_map_eq; reflexivity.
Qed.

Lemma build_settings_lookup temperature top_p max_tokens key :
  build_settings E temperature top_p max_tokens !! key =
    match call_value temperature top_p max_tokens key with
    | Some v => Some v
    | None => global_value E key
    end.
Proof.
  unfold build_settings. rewrite !override_lookup, get_settings_lookup.
  unfold call_value, global_value.
  destruct max_tokens, top_p, temperature; repeat case_decide;
    subst; try discriminate; try reflexivity.
Qed.

Lemma query_uncached_run img question repo stream temperature top_p max_tokens
    s m s1 :
  load_model E (Some repo) s = (Ok m, s1) ->
  snd (query E img question repo stream temperature top_p max_tokens false s) =
    log_event
      (EvQuery m (RawImage img) question stream
         (or_none (build_settings E temperature top_p max_tokens))) s1.
Proof.
  intros Hload. unfold query, bind at 1. rewrite Hload.
  unfold bind, ret, external, lift.
  destruct (model_query _ _ _ _ _ _ _); [destruct (inspect_response _ _)|];
    reflexivity.
Qed.

Lemma caption_run img repo length stream temperature top_p max_tokens s m s1 :
  load_model E (Some repo) s = (Ok m, s1) ->
  snd (caption E img repo length stream temperature top_p max_tokens s) =
    log_event
      (EvCaption m img length stream
         (or_none (build_settings E temperature top_p max_tokens))) s1.
Proof.
  intros Hload. unfold caption, bind at 1. now rewrite Hload.
Qed.

End Settings.

(** C6.  The settings built for a call hold, for each of [max_tokens],
    [temperature] and [top_p], the per-call value when one is given and
    otherwise the global value when that is greater than zero; they hold
    nothing else.  Building them is a total function of the options and
    the per-call values: the only trace a call of [query] or [caption]
    leaves after loading is the model call, which carries these settings.
    A global temperature of 0 with a per-call 0.7 gives 0.7; a global
    [max_tokens] of 100 with no per-call value gives 100. *)
Theorem effective_settings (E : Env) temperature top_p max_tokens :
  (forall key,
     build_settings E temperature top_p max_tokens !! key =
       match call_value temperature top_p max_tokens key with
       | Some v => Some v
       | None => global_value E key
       end) /\
  (forall img question size repo stream s m s1,
     load_model E (Some repo) s = (Ok m, s1) ->
     snd (query E img question repo stream temperature top_p max_tokens false s) =
       log_event
         (EvQuery m (RawImage img) question stream
            (or_none (build_settings E temperature top_p max_tokens))) s1 /\
     snd (caption E img repo size stream temperature top_p max_tokens s) =
       log_event
         (EvCaption m img size stream
            (or_none (build_settings E temperature top_p max_tokens))) s1) /\
  build_settings Demo.configured (Some (PFloat 0.7)) None None
    !! "temperature" = Some (PFloat 0.7) /\
  build_settings Demo.configured None None None
    !! "max_tokens" = Some (PInt 100).
Proof.
  split; [apply build_settings_lookup|]. split; [|split].
  - intros img question size repo stream s m s1 Hload.
    split; [now apply query_uncached_run | now apply caption_run].
  - rewrite build_settings_lookup. reflexivity.
  - rewrite build_settings_lookup. reflexivity.
Qed.

(** C6, on a sample: with the global values of [Demo.configured], a
    query with temperature 0.7 sends exactly [max_tokens] and
    [temperature]. *)
Lemma effective_settings_witness :
  history (snd (query Demo.configured Demo.img "what is this" "repo"
                  false (Some (PFloat 0.7)) None None false initial))
  = [EvFromPretrained (Some "repo"); EvSetup (ModelEval 1%N); EvSetup TorchGC;
     EvSetup (MoveModel 1%N);
     EvQuery 1%N (RawImage Demo.img) "what is this" false
       (Some (<["max_tokens" := PInt 100]>
                (<["temperature" := PFloat 0.7]> ∅)))].
Proof.
  destruct (effective_settings Demo.configured (Some (PFloat 0.7)) None None)
    as (_ & Hrun & _).
  destruct (Hrun Demo.img "what is this" "normal" "repo" false initial 1%N
              (snd (load_model Demo.configured (Some "repo") initial))
              eq_refl) as [Hq _].
  rewrite Hq. vm_compute. reflexivity.
Defined.

(** ** C7, C10: the encoding cache *)

Lemma encode_calls_log ev s :
  encode_calls (log_event ev s) =
    (encode_calls s + if is_encode ev then 1 else 0)%nat.
Proof.
  unfold encode_calls, log_event. cbn [history].
  rewrite filter_app, length_app. cbn.
  destruct (is_encode ev); cbn.
  - now rewrite decide_True.
  - now rewrite decide_False.
Qed.

Lemma same_encodings_refl s : same_encodings s s.
Proof. split; reflexivity. Qed.

Lemma same_encodings_trans s1 s2 s3 :
  same_encodings s1 s2 -> same_encodings s2 s3 -> same_encodings s1 s3.
Proof. intros [H1 H2] [H3 H4]. split; congruence. Qed.

Lemma same_encodings_log ev s :
  is_encode ev = false -> same_encodings s (log_event ev s).
Proof.
  intros Hev. split; [reflexivity|].
  rewrite encode_calls_log, Hev. lia.
Qed.

Lemma blind_ret {A} (a : A) : cache_blind (ret a).
Proof. intros c s. reflexivity. Qed.

Lemma blind_external {A} ev (outcome : list event -> result A) :
  cache_blind (external ev outcome).
Proof. intros c s. reflexivity. Qed.

Lemma blind_bind {A B} (m : M A) (k : A -> M B) :
  cache_blind m -> (forall a, cache_blind (k a)) -> cache_blind (bind m k).
Proof.
  intros Hm Hk c s. unfold bind. rewrite Hm.
  destruct (m s) as [[a|e] s1]; cbn [fst snd]; [apply Hk | reflexivity].
Qed.

Lemma blind_when (b : bool) (m : M unit) : cache_blind m -> cache_blind (when b m).
Proof. destruct b; [trivial | intros _; apply blind_ret]. Qed.

Ltac frame_encodings :=
  repeat first
    [ apply keeps_ret; exact same_encodings_refl
    | apply keeps_get; exact same_encodings_refl
    | apply keeps_modify; intros; split; reflexivity
    | apply keeps_external; intros; apply same_encodings_log; reflexivity
    | apply keeps_when; [exact same_encodings_refl|]
    | apply keeps_bind; [exact same_encodings_trans | | intros] ].

Section Cache.

Variable E : Env.

Lemma reload_same_encodings repo : keeps same_encodings (reload E repo).
Proof. unfold reload. frame_encodings. Qed.

Lemma load_model_same_encodings repo : keeps same_encodings (load_model E repo).
Proof.
  unfold load_model.
  apply keeps_bind; [exact same_encodings_trans | frame_encodings | intros s0].
  apply keeps_bind; [exact same_encodings_trans | | intros m; frame_encodings].
  destruct (moondream3_model s0); [destruct (decide _)|];
    auto using reload_same_encodings, keeps_ret, same_encodings_refl.
Qed.

Lemma reload_blind repo : cache_blind (reload E repo).
Proof.
  unfold reload.
  repeat first
    [ apply blind_bind; [|intros]
    | apply blind_when
    | apply blind_external
    | apply blind_ret
    | intros c s; reflexivity ].
Qed.

Lemma load_model_blind repo : cache_blind (load_model E repo).
Proof.
  pose (body := fun s0 : state =>
    bind (match moondream3_model s0 with
          | None => reload E repo
          | Some m => if decide (loaded s0 = repo) then ret m else reload E repo
          end)
         (fun m => bind (external (EvSetup (MoveModel m))
                           (fun h => setup E h (MoveModel m)))
                        (fun _ => ret m))).
  assert (Hbody : forall s0, cache_blind (body s0)).
  { intros s0. unfold body. apply blind_bind.
    - destruct (moondream3_model s0); [destruct (decide _)|];
        auto using reload_blind, blind_ret.
    - intros m. apply blind_bind; [apply blind_external | intros; apply blind_ret]. }
  intros c s.
  change (body (set_cache c s) (set_cache c s)
          = (fst (body s s), set_cache c (snd (body s s)))).
  change (body (set_cache c s)) with (body s).
  apply Hbody.
Qed.

Lemma key_truthy_nonempty k : k <> "" -> key_truthy (Some k) = Some k.
Proof.
  intros Hk. unfold key_truthy.
  destruct (String.eqb k "") eqn:Heq; [|reflexivity].
  apply String.eqb_eq in Heq. contradiction.
Qed.

Lemma encode_hit img cache_key s h :
  cache_hit cache_key s = Some h -> encode_image E img cache_key s = (Ok h, s).
Proof. intros Hhit. unfold encode_image, bind, get. now rewrite Hhit. Qed.

(** Past the cache, [encode_image] loads the model, calls the encoder and
    stores the result under a true key. *)
Lemma encode_miss img cache_key s :
  cache_hit cache_key s = None ->
  encode_image E img cache_key s =
    match load_model E (loaded s) s with
    | (Ok m, s1) =>
        let s2 := log_event (EvEncodeImage m img) s1 in
        match model_encode_image E (history s1) m img with
        | Ok h => (Ok h, match key_truthy cache_key with
                         | Some k => store k h s2
                         | None => s2
                         end)
        | Raise e => (Raise e, s2)
        end
    | (Raise e, s1) => (Raise e, s1)
    end.
Proof.
  intros Hmiss. unfold encode_image, bind at 1, get. rewrite Hmiss.
  unfold bind at 1. destruct (load_model E (loaded s) s) as [[m|e] s1]; [|reflexivity].
  unfold bind at 1, external.
  destruct (model_encode_image E (history s1) m img); [|reflexivity].
  destruct (key_truthy cache_key); reflexivity.
Qed.

Lemma encode_miss_some img k s h s2 :
  k <> "" ->
  image_cache s !! k = None ->
  encode_image E img (Some k) s = (Ok h, s2) ->
  image_cache s2 !! k = Some h /\ encode_calls s2 = (encode_calls s + 1)%nat.
Proof.
  intros Hk Hnone Hrun.
  rewrite encode_miss in Hrun
    by (unfold cache_hit; now rewrite key_truthy_nonempty).
  destruct (load_model E (loaded s) s) as [[m|e] s1] eqn:Hload; [|discriminate].
  cbv zeta in Hrun.
  destruct (model_encode_image E (history s1) m img); [|discriminate].
  rewrite key_truthy_nonempty in Hrun by assumption. inv_pair.
  destruct (load_model_same_encodings (loaded s) s _ s1 Hload) as [_ Hcalls].
  split.
  - cbn. apply lookup_insert_eq.
  - change (encode_calls (store k h (log_event (EvEncodeImage m img) s1)))
      with (encode_calls (log_event (EvEncodeImage m img) s1)).
    rewrite encode_calls_log, Hcalls. reflexivity.
Qed.

End Cache.

(** C7 (amended).  For a key that is not empty, once [encode_image] has
    returned a handle for it, a further call with the same key returns the
    same handle and leaves the state, history included, as it is: the two
    calls have invoked the encoder once, or not at all when the key was
    cached before.  [clear_cache] empties the cache, and a call with the
    same key that returns afterwards has invoked the encoder once more and
    cached its handle. *)
Theorem cache_memo (E : Env) img k s h s1 :
  k <> "" ->
  encode_image E img (Some k) s = (Ok h, s1) ->
  (forall img', encode_image E img' (Some k) s1 = (Ok h, s1)) /\
  encode_calls s1 =
    (encode_calls s + match image_cache s !! k with Some _ => 0 | None => 1 end)%nat /\
  image_cache (snd (clear_cache s1)) = ∅ /\
  (forall img' h' s2,
     encode_image E img' (Some k) (snd (clear_cache s1)) = (Ok h', s2) ->
     encode_calls s2 = (encode_calls s1 + 1)%nat /\ image_cache s2 !! k = Some h').
Proof.
  intros Hk Hrun.
  assert (Hcached : image_cache s1 !! k = Some h /\
            encode_calls s1 =
              (encode_calls s
               + match image_cache s !! k with Some _ => 0 | None => 1 end)%nat).
  { destruct (image_cache s !! k) as [h0|] eqn:Hlook.
    - rewrite (encode_hit E img (Some k) s h0) in Hrun
        by (unfold cache_hit; now rewrite key_truthy_nonempty).
      inv_pair. split; [assumption | lia].
    - now apply (encode_miss_some E img k s h s1). }
  destruct Hcached as [Hlook Hcalls].
  split; [|split; [exact Hcalls | split; [reflexivity|]]].
  - intros img'. apply encode_hit.
    unfold cache_hit. now rewrite key_truthy_nonempty.
  - intros img' h' s2 Hagain.
    destruct (encode_miss_some E img' k (snd (clear_cache s1)) h' s2 Hk
                (lookup_empty k) Hagain) as [Hlook' Hcalls'].
    split; [exact Hcalls' | exact Hlook'].
Qed.

(** C7, on a sample: two calls with the key "k1" from the initial state. *)
Lemma cache_memo_witness :
  let E := Demo.scripted PNone PNone in
  let first := encode_image E Demo.img (Some "k1") initial in
  encode_image E Demo.img (Some "k1") (snd first) = (Ok 4%N, snd first) /\
  encode_calls (snd first) = 1%nat.
Proof.
  intros E first.
  destruct (cache_memo E Demo.img "k1" initial 4%N (snd first))
    as (Hsame & Hcalls & _).
  - discriminate.
  - vm_compute. reflexivity.
  - split; [apply Hsame | exact Hcalls].
Defined.

(** C7 as stated fails for the empty key, which is not [None]: each of two
    successive calls invokes the encoder, and the handles differ. *)
Lemma empty_key_not_memoised :
  let E := Demo.scripted PNone PNone in
  exists h1 s1 h2 s2,
    encode_image E Demo.img (Some "") initial = (Ok h1, s1) /\
    encode_image E Demo.img (Some "") s1 = (Ok h2, s2) /\
    h1 <> h2 /\ encode_calls s2 = 2%nat.
Proof.
  intros E. exists 4%N, (snd (encode_image E Demo.img (Some "") initial)).
  exists 6%N.
  exists (snd (encode_image E Demo.img (Some "")
                 (snd (encode_image E Demo.img (Some "") initial)))).
  repeat split; try (vm_compute; reflexivity). discriminate.
Qed.

(** C10.  With the empty string as key, [encode_image] behaves as with no
    key.  It neither reads nor writes the cache: run with any other cache
    it has the same outcome and leaves that cache in place.  It always goes
    to the model: once the model is loaded the encoder is called and its
    outcome, handle or exception, is the outcome of the call. *)
Theorem empty_key_bypasses_cache (E : Env) img s :
  encode_image E img (Some "") s = encode_image E img None s /\
  (forall c,
     encode_image E img (Some "") (set_cache c s) =
       (fst (encode_image E img (Some "") s),
        set_cache c (snd (encode_image E img (Some "") s)))) /\
  image_cache (snd (encode_image E img (Some "") s)) = image_cache s /\
  (forall m s1,
     load_model E (loaded s) s = (Ok m, s1) ->
     encode_image E img (Some "") s =
       (model_encode_image E (history s1) m img,
        log_event (EvEncodeImage m img) s1)) /\
  (forall e s1,
     load_model E (loaded s) s = (Raise e, s1) ->
     encode_image E img (Some "") s = (Raise e, s1)).
Proof.
  assert (Hblind : forall c,
            encode_image E img (Some "") (set_cache c s) =
              (fst (encode_image E img (Some "") s),
               set_cache c (snd (encode_image E img (Some "") s)))).
  { intros c. rewrite !encode_miss by reflexivity.
    change (loaded (set_cache c s)) with (loaded s).
    rewrite (load_model_blind E (loaded s) c s).
    destruct (load_model E (loaded s) s) as [[m|e] s1]; cbn [fst snd]; [|reflexivity].
    cbv zeta. change (history (set_cache c s1)) with (history s1).
    destruct (model_encode_image E (history s1) m img); reflexivity. }
  split; [reflexivity|]. split; [exact Hblind|]. split; [|split].
  - specialize (Hblind (image_cache s)).
    replace (set_cache (image_cache s) s) with s in Hblind by now destruct s.
    destruct (encode_image E img (Some "") s) as [r s'].
    cbn [fst snd] in *. inversion Hblind as [Hs']. now rewrite Hs' at 1.
  - intros m s1 Hload. rewrite encode_miss by reflexivity. rewrite Hload.
    cbv zeta. destruct (model_encode_image E (history s1) m img); reflexivity.
  - intros e s1 Hload. rewrite encode_miss by reflexivity. now rewrite Hload.
Qed.

(** C10, on a sample: even with an entry stored under the empty key, the
    call returns the fresh handle of the encoder and leaves the entry. *)
Lemma empty_key_bypasses_cache_witness :
  let s := set_cache (<["" := 99%N]> ∅) initial in
  let E := Demo.scripted PNone PNone in
  fst (encode_image E Demo.img (Some "") s) = Ok 4%N /\
  image_cache (snd (encode_image E Demo.img (Some "") s)) = <["" := 99%N]> ∅.
Proof.
  intros s E.
  destruct (empty_key_bypasses_cache E Demo.img s) as (_ & _ & Hcache & Hrun & _).
  split.
  - rewrite (Hrun 1%N (snd (load_model E (loaded s) s)) eq_refl). reflexivity.
  - exact Hcache.
Defined.

(** ** C8: a malformed entry makes [point] raise *)

(** C8 fails on the code.  For a [points] entry whose [x] is [None], the
    parsing of [point] raises [TypeError] in every environment; [point]
    itself raises, and [predict] turns that into an error text.  The loop
    of [detect] reports the same kind of entry and goes on with the next
    one. *)
Theorem point_raises_on_malformed_entry (E : Env) :
  point_parse E Demo.point_with_null
  = Raise (Exn "TypeError"
             "float() argument must be a string or a real number, not 'NoneType'") /\
  fst (point (Demo.scripted Demo.point_with_null PNone)
         Demo.img "dog" "repo" initial)
  = Raise (Exn "TypeError"
             "float() argument must be a string or a real number, not 'NoneType'") /\
  fst (predict (Demo.scripted Demo.point_with_null PNone)
         "where is the dog?" Demo.img "repo" None false false [] initial)
  = Ok (Value (PStr
      "Error: float() argument must be a string or a real number, not 'NoneType'")) /\
  fst (detect (Demo.scripted PNone Demo.one_null_one_box)
         Demo.img "dog" "repo" (PInt 10) initial)
  = Ok [Detection "dog" [0.0; 0.0; 0.5; 0.5]%float 1.0%float].
Proof. repeat split; vm_compute; reflexivity. Qed.

(** ** C9: truncation at "and" *)

Section Truncation.

Lemma lower_char_space c : lower_char c = " "%char -> c = " "%char.
Proof.
  destruct c as [[] [] [] [] [] [] [] []]; vm_compute; intros H;
    first [reflexivity | discriminate H].
Qed.

Lemma lower_char_letter c x :
  In x ["a"; "n"; "d"]%char ->
  Ascii.eqb x (lower_char c) = true ->
  is_space c = false /\ Ascii.eqb (lower_char x) (lower_char c) = true.
Proof.
  intros Hx. cbn in Hx.
  destruct Hx as [<-|[<-|[<-|[]]]];
    destruct c as [[] [] [] [] [] [] [] []]; vm_compute; intros H;
    first [discriminate H | split; reflexivity].
Qed.

(** Where the lowered text starts with " and ", the pattern matches. *)
Lemma literal_and_matches s :
  starts_with " and " (lower s) = true -> ws_and_ws_at s = true.
Proof.
  destruct s as [|c0 [|c1 [|c2 [|c3 [|c4 s]]]]]; cbn [lower starts_with];
    rewrite ?andb_false_r; try discriminate.
  rewrite !andb_true_iff.
  intros (H0 & H1 & H2 & H3 & H4 & _).
  apply Ascii.eqb_eq in H0, H4. symmetry in H0, H4.
  apply lower_char_space in H0, H4. subst c0 c4.
  destruct (lower_char_letter c1 "a"%char) as [S1 L1]; [cbn; auto | exact H1 |].
  destruct (lower_char_letter c2 "n"%char) as [S2 L2]; [cbn; auto | exact H2 |].
  destruct (lower_char_letter c3 "d"%char) as [S3 L3]; [cbn; auto | exact H3 |].
  unfold ws_and_ws_at. cbn [lstrip]. rewrite S1.
  cbn [starts_with_ci]. rewrite L1, L2, L3. reflexivity.
Qed.

Lemma contains_and_matches s :
  Text.contains " and " (lower s) = true ->
  exists i, ws_and_ws_at (Text.drop i s) = true.
Proof.
  induction s as [|c s IH].
  - discriminate.
  - cbn [lower Text.contains]. intros H. apply orb_true_iff in H.
    destruct H as [H|H].
    + exists 0%nat. apply literal_and_matches. exact H.
    + destruct (IH H) as [i Hi]. now exists (S i).
Qed.

(** [split_and_first] cuts at the leftmost match of the pattern. *)
Lemma split_and_first_spec s :
  exists rest,
    s = split_and_first s ++ rest /\
    (rest = "" \/ ws_and_ws_at rest = true) /\
    forall i, (i < String.length (split_and_first s))%nat ->
              ws_and_ws_at (Text.drop i s) = false.
Proof.
  induction s as [|c s (rest & Hs & Hrest & Hbefore)].
  - exists "". repeat split; auto. intros i Hi. cbn in Hi. lia.
  - cbn [split_and_first].
    destruct (ws_and_ws_at (String c s)) eqn:Hat.
    + exists (String c s). repeat split; auto. intros i Hi. cbn in Hi. lia.
    + exists rest.
      split; [change (String c s = String c (split_and_first s ++ rest));
              now f_equal|].
      split; [exact Hrest|].
      intros [|i] Hi; [exact Hat|]. cbn in Hi. apply Hbefore. lia.
Qed.

Lemma length_append (a b : string) :
  String.length (a ++ b) = (String.length a + String.length b)%nat.
Proof.
  induction a as [|c a IH]; [reflexivity|].
  change (S (String.length (a ++ b)) = S (String.length a + String.length b)).
  now rewrite IH.
Qed.

Lemma drop_all s i : (String.length s <= i)%nat -> Text.drop i s = "".
Proof.
  revert i. induction s as [|c s IH]; intros [|i] H; cbn in *;
    try reflexivity; try lia.
  apply IH. lia.
Qed.

(** When the lowered name contains " and ", the cut is a proper one: the
    name continues with a match of the pattern. *)
Lemma split_and_first_cuts s :
  Text.contains " and " (lower s) = true ->
  exists rest, s = split_and_first s ++ rest /\ ws_and_ws_at rest = true.
Proof.
  intros Hc. destruct (split_and_first_spec s) as (rest & Hs & Hrest & Hbefore).
  exists rest. split; [exact Hs|].
  destruct Hrest as [->|H]; [|exact H].
  destruct (contains_and_matches s Hc) as [i Hi].
  assert (Hlen : String.length (split_and_first s) = String.length s).
  { rewrite Hs at 2. rewrite length_append. cbn. lia. }
  destruct (Nat.lt_ge_cases i (String.length s)) as [Hlt|Hge].
  - rewrite Hbefore in Hi by lia. discriminate.
  - rewrite drop_all in Hi by assumption. discriminate.
Qed.

(** A match of the pattern with none starting before it is where the cut
    is made. *)
Lemma split_and_first_at p rest :
  ws_and_ws_at rest = true ->
  (forall i, (i < String.length p)%nat ->
             ws_and_ws_at (Text.drop i (p ++ rest)) = false) ->
  split_and_first (p ++ rest) = p.
Proof.
  intros Hrest. induction p as [|c p IH]; intros Hbefore.
  - change (split_and_first rest = "").
    destruct rest as [|a r]; [discriminate|].
    cbn [split_and_first]. now rewrite Hrest.
  - assert (H0 : ws_and_ws_at (String c (p ++ rest)) = false)
      by (apply (Hbefore 0%nat); cbn; lia).
    change (split_and_first (String c (p ++ rest)) = String c p).
    cbn [split_and_first]. rewrite H0. f_equal.
    apply IH. intros i Hi. apply (Hbefore (S i)). cbn. lia.
Qed.

End Truncation.

Lemma contains_literal_and p r :
  Text.contains " and " (lower (p ++ " and " ++ r)) = true.
Proof.
  induction p as [|c p IH]; [reflexivity|].
  change (Text.contains " and " (String (lower_char c) (lower (p ++ " and " ++ r)))
          = true).
  cbn [Text.contains]. rewrite IH. apply orb_true_r.
Qed.

(** C9 (amended).  In detect mode, and only there, the stripped name is cut
    when its lowered text contains " and ": the model receives the text
    before the leftmost whitespace-delimited "and" in any letter case (the
    first match of whitespace, "and", whitespace), with outer whitespace
    removed.  Where the leftmost such match is a literal " and ", this is
    the text before it, trimmed.  In point mode the stripped name is sent
    as it is. *)
Theorem and_truncation (E : Env) question img repo mode stream use_cache kwargs
    s m s1 :
  load_model E (Some repo) s = (Ok m, s1) ->
  (chosen_mode question mode = "detect" ->
   exists r s' tail,
     predict E question img repo mode stream use_cache kwargs s = (Ok r, s') /\
     history s' =
       (history s1
        ++ EvDetect m img
             (cut_at_and (extract detect_phrases (clean_question question)))
             (detect_settings (default (PInt 10) (dict_get "max_objects" kwargs)))
           :: tail)%list) /\
  (chosen_mode question mode = "point" ->
   exists r s' tail,
     predict E question img repo mode stream use_cache kwargs s = (Ok r, s') /\
     history s' =
       (history s1
        ++ EvPoint m img (extract point_phrases (clean_question question))
           :: tail)%list) /\
  (forall name,
     Text.contains " and " (lower name) = true ->
     cut_at_and name = strip (split_and_first name) /\
     exists rest,
       name = split_and_first name ++ rest /\
       ws_and_ws_at rest = true /\
       forall i, (i < String.length (split_and_first name))%nat ->
                 ws_and_ws_at (Text.drop i name) = false) /\
  (forall name,
     Text.contains " and " (lower name) = false -> cut_at_and name = name) /\
  (forall p r,
     (forall i, (i < String.length p)%nat ->
                ws_and_ws_at (Text.drop i (p ++ " and " ++ r)) = false) ->
     cut_at_and (p ++ " and " ++ r) = strip p).
Proof.
  intros Hload. split; [|split; [|split; [|split]]].
  - intros Hmode. now apply predict_detect_call.
  - intros Hmode. now apply predict_point_call.
  - intros name Hc. split; [unfold cut_at_and; now rewrite Hc|].
    destruct (split_and_first_cuts name Hc) as (rest & Hname & Hrest).
    destruct (split_and_first_spec name) as (rest' & _ & _ & Hbefore).
    exists rest. auto.
  - intros name Hc. unfold cut_at_and. now rewrite Hc.
  - intros p r Hbefore. unfold cut_at_and.
    rewrite contains_literal_and.
    now rewrite (split_and_first_at p (" and " ++ r) eq_refl Hbefore).
Qed.

(** C9, on a sample: "detect cars and trucks" asks the model for "cars",
    "where is the cat and dog" asks it for "cat and dog". *)
Lemma and_truncation_witness :
  (exists tail,
     history (snd (predict (Demo.scripted PNone Demo.one_box_one_partial)
                     "detect cars and trucks" Demo.img "repo" (Some "detect")
                     false false [] initial))
     = ([EvFromPretrained (Some "repo"); EvSetup (ModelEval 1%N);
         EvSetup TorchGC; EvSetup (MoveModel 1%N)]
        ++ EvDetect 1%N Demo.img "cars" (detect_settings (PInt 10)) :: tail)%list) /\
  (exists tail,
     history (snd (predict (Demo.scripted Demo.two_points PNone)
                     "where is the cat and dog" Demo.img "repo" None
                     false false [] initial))
     = ([EvFromPretrained (Some "repo"); EvSetup (ModelEval 1%N);
         EvSetup TorchGC; EvSetup (MoveModel 1%N)]
        ++ EvPoint 1%N Demo.img "cat and dog" :: tail)%list).
Proof.
  split.
  - destruct (and_truncation (Demo.scripted PNone Demo.one_box_one_partial)
                "detect cars and trucks" Demo.img "repo" (Some "detect")
                false false [] initial 1%N
                (snd (load_model (Demo.scripted PNone Demo.one_box_one_partial)
                        (Some "repo") initial)) eq_refl) as (Hd & _).
    destruct (Hd eq_refl) as (r & s' & tail & Hrun & Hhist).
    exists tail. rewrite Hrun. exact Hhist.
  - destruct (and_truncation (Demo.scripted Demo.two_points PNone)
                "where is the cat and dog" Demo.img "repo" None
                false false [] initial 1%N
                (snd (load_model (Demo.scripted Demo.two_points PNone)
                        (Some "repo") initial)) eq_refl) as (_ & Hp & _).
    destruct (Hp eq_refl) as (r & s' & tail & Hrun & Hhist).
    exists tail. rewrite Hrun. exact Hhist.
Defined.

(** C9 as stated fails: the cut is made at the first "and" in any letter
    case and with any whitespace around it, not at the first literal
    " and ".  For "detect cats AND dogs and birds" the text before the
    first " and " is "cats AND dogs", and the model is asked for "cats";
    for "cat detect and dog" the text before it is "cat " with its space,
    and the model is asked for "cat". *)
Lemma and_cut_is_not_literal :
  (let name := extract detect_phrases (clean_question "detect cats AND dogs and birds") in
   name = "cats AND dogs and birds" /\
   Text.contains " and " name = true /\
   before_first " and " name = "cats AND dogs" /\
   detect_object_name (clean_question "detect cats AND dogs and birds") = "cats") /\
  (let name := extract detect_phrases (clean_question "cat detect and dog") in
   name = "cat  and dog" /\
   Text.contains " and " name = true /\
   before_first " and " name = "cat " /\
   detect_object_name (clean_question "cat detect and dog") = "cat").
Proof. repeat split; vm_compute; reflexivity. Qed.

(** * Further properties *)

(** ** Loading and reloading the model *)

Lemma load_calls_log ev s :
  load_calls (log_event ev s) = (load_calls s + if is_load ev then 1 else 0)%nat.
Proof.
  unfold load_calls, log_event. cbn [history].
  rewrite filter_app, length_app. cbn.
  destruct (is_load ev); cbn.
  - now rewrite decide_True.
  - now rewrite decide_False.
Qed.

Lemma load_calls_set_model m s : load_calls (set_model m s) = load_calls s.
Proof. reflexivity. Qed.

Lemma load_calls_set_loaded r s : load_calls (set_loaded r s) = load_calls s.
Proof. reflexivity. Qed.

(** Unfolds the monad and splits on the outcome of every external call. *)
Ltac run_calls H :=
  unfold reload, when in H;
  try match type of H with
  | context [in_list ?x ?l] => destruct (in_list x l)
  end;
  unfold bind, modify, external, ret, get, lift in H;
  repeat match type of H with
  | context [match ?x with _ => _ end] => destruct x eqn:?
  | context [if ?b then _ else _] => destruct b eqn:?
  end;
  inv_pair.

Section Loading.

Variable E : Env.

(** With a model in place for the requested repository, [load_model] only
    moves it to the device. *)
Lemma load_model_loaded repo s m :
  moondream3_model s = Some m ->
  loaded s = repo ->
  load_model E repo s =
    (match setup E (history s) (MoveModel m) with
     | Ok _ => Ok m
     | Raise e => Raise e
     end,
     log_event (EvSetup (MoveModel m)) s).
Proof.
  intros Hm Hl. unfold load_model, bind at 1, get. rewrite Hm.
  destruct (decide (loaded s = repo)); [|contradiction].
  unfold bind, ret, external.
  destruct (setup E (history s) (MoveModel m)); reflexivity.
Qed.

(** Without a model, or for another repository, [load_model] starts with
    [reload]. *)
Lemma load_model_reloads repo s :
  moondream3_model s = None \/ loaded s <> repo ->
  load_model E repo s =
    bind (reload E repo)
         (fun m => bind (external (EvSetup (MoveModel m))
                           (fun h => setup E h (MoveModel m)))
                        (fun _ => ret m)) s.
Proof.
  intros Hs. unfold load_model, bind at 1, get.
  destruct (moondream3_model s) as [m|]; [|reflexivity].
  destruct (decide (loaded s = repo)); [|reflexivity].
  destruct Hs; [discriminate | contradiction].
Qed.

(** [reload] calls [from_pretrained] exactly once, whatever happens next. *)
Lemma reload_load_calls repo s r s1 :
  reload E repo s = (r, s1) -> load_calls s1 = S (load_calls s).
Proof.
  intros H. run_calls H;
    repeat first [ rewrite load_calls_log; cbn [is_load]
                 | rewrite load_calls_set_model
                 | rewrite load_calls_set_loaded ];
    lia.
Qed.

Lemma reload_ok repo s m s1 :
  reload E repo s = (Ok m, s1) ->
  moondream3_model s1 = Some m /\ loaded s1 = repo.
Proof. intros H. run_calls H; split; reflexivity. Qed.

Lemma load_model_ok repo s m s1 :
  load_model E repo s = (Ok m, s1) ->
  moondream3_model s1 = Some m /\ loaded s1 = repo.
Proof.
  intros H. unfold load_model, bind at 1, get in H.
  destruct (moondream3_model s) as [m0|] eqn:Hm;
    [destruct (decide (loaded s = repo)) as [Hl|Hl]|].
  - subst repo. run_calls H. split; [exact Hm | reflexivity].
  - unfold bind at 1 in H.
    destruct (reload E repo s) as [[m1|e] s0] eqn:Hr; [|discriminate].
    destruct (reload_ok repo s m1 s0 Hr) as [Hm1 Hl1]. run_calls H.
    split; [exact Hm1 | first [exact Hl1 | reflexivity]].
  - unfold bind at 1 in H.
    destruct (reload E repo s) as [[m1|e] s0] eqn:Hr; [|discriminate].
    destruct (reload_ok repo s m1 s0 Hr) as [Hm1 Hl1]. run_calls H.
    split; [exact Hm1 | first [exact Hl1 | reflexivity]].
Qed.

(** A call that goes through [reload] calls [from_pretrained] once. *)
Lemma load_model_reload_calls repo s r s1 :
  moondream3_model s = None \/ loaded s <> repo ->
  load_model E repo s = (r, s1) -> load_calls s1 = S (load_calls s).
Proof.
  intros Hs H. rewrite load_model_reloads in H by assumption.
  unfold bind at 1 in H.
  destruct (reload E repo s) as [[m|e] s0] eqn:Hr.
  - apply reload_load_calls in Hr. run_calls H;
      rewrite load_calls_log; cbn [is_load]; lia.
  - apply reload_load_calls in Hr. now inv_pair.
Qed.

End Loading.

(** X1.  Once [load_model] has returned a model for a repository, a further
    call for the same repository does not load anything: it moves that same
    model to the device and returns it (or raises what the move raised).  A
    call for another repository calls [from_pretrained] once more. *)
Theorem model_reused (E : Env) repo s m s1 :
  load_model E repo s = (Ok m, s1) ->
  load_model E repo s1 =
    (match setup E (history s1) (MoveModel m) with
     | Ok _ => Ok m
     | Raise e => Raise e
     end,
     log_event (EvSetup (MoveModel m)) s1) /\
  (forall other r s2,
     other <> repo ->
     load_model E other s1 = (r, s2) -> load_calls s2 = S (load_calls s1)).
Proof.
  intros Hload. destruct (load_model_ok E repo s m s1 Hload) as [Hm Hl].
  split.
  - now apply load_model_loaded.
  - intros other r s2 Hother Hrun.
    apply (load_model_reload_calls E other s1 r s2); [|exact Hrun].
    right. congruence.
Qed.

(** X1, on a sample: two loads of the repository "a", then one of "b". *)
Lemma model_reused_witness :
  let E := Demo.scripted PNone PNone in
  let s1 := snd (load_model E (Some "a") initial) in
  load_model E (Some "a") s1 = (Ok 1%N, log_event (EvSetup (MoveModel 1%N)) s1) /\
  load_calls (snd (load_model E (Some "b") s1)) = 2%nat.
Proof.
  intros E s1.
  destruct (model_reused E (Some "a") initial 1%N s1 eq_refl) as [Hsame Hother].
  split.
  - rewrite Hsame. reflexivity.
  - rewrite (Hother (Some "b") (fst (load_model E (Some "b") s1))
               (snd (load_model E (Some "b") s1))); [reflexivity | discriminate |].
    now destruct (load_model E (Some "b") s1).
Defined.

(** X2.  When [from_pretrained] raises, [load_model] raises the same
    exception and leaves no model behind: [moondream3_model] is [None] even
    if another model was loaded before, while [loaded] and the cache are as
    they were.  The next call, for any repository, loads from scratch. *)
Theorem failed_load_unloads (E : Env) repo s e :
  moondream3_model s = None \/ loaded s <> repo ->
  from_pretrained E (history s) repo = Raise e ->
  let s1 := log_event (EvFromPretrained repo) (set_model None s) in
  load_model E repo s = (Raise e, s1) /\
  moondream3_model s1 = None /\
  loaded s1 = loaded s /\
  image_cache s1 = image_cache s /\
  (forall next r s2,
     load_model E next s1 = (r, s2) -> load_calls s2 = S (load_calls s1)).
Proof.
  intros Hs Hfail s1. split; [|repeat split].
  - rewrite load_model_reloads by assumption.
    unfold bind at 1, reload, bind at 1, modify, bind at 1, external.
    cbn [history set_model]. now rewrite Hfail.
  - intros next r s2 Hrun.
    apply (load_model_reload_calls E next s1 r s2); [now left | exact Hrun].
Qed.

(** X2, on a sample: with "a" loaded, a failed switch to "b" unloads it, and
    going back to "a" loads it again. *)
Lemma failed_load_unloads_witness :
  let s := snd (load_model Cases.only_a (Some "a") initial) in
  let s1 := snd (load_model Cases.only_a (Some "b") s) in
  moondream3_model s = Some 1%N /\
  fst (load_model Cases.only_a (Some "b") s) = Raise Cases.not_found /\
  moondream3_model s1 = None /\
  load_calls (snd (load_model Cases.only_a (Some "a") s1)) = 3%nat.
Proof.
  intros s s1.
  destruct (failed_load_unloads Cases.only_a (Some "b") s Cases.not_found)
    as (Hrun & Hnone & _ & _ & Hnext).
  - right. discriminate.
  - reflexivity.
  - split; [reflexivity|]. unfold s1. rewrite Hrun. cbn [fst snd].
    split; [reflexivity|]. split; [exact Hnone|].
    rewrite (Hnext (Some "a")
               (fst (load_model Cases.only_a (Some "a")
                       (log_event (EvFromPretrained (Some "b")) (set_model None s))))
               (snd (load_model Cases.only_a (Some "a")
                       (log_event (EvFromPretrained (Some "b")) (set_model None s)))));
      [reflexivity|].
    now destruct (load_model Cases.only_a (Some "a") _).
Defined.

(** X3.  When [from_pretrained] returns a model and its [eval] raises,
    [load_model] raises with the new model already stored in
    [moondream3_model] and [loaded] still naming the previous repository.
    A later call for that previous repository then returns the new model
    without loading anything. *)
Theorem eval_failure_leaves_mismatch (E : Env) repo s m e :
  moondream3_model s = None \/ loaded s <> repo ->
  from_pretrained E (history s) repo = Ok m ->
  setup E (history s ++ [EvFromPretrained repo]) (ModelEval m) = Raise e ->
  exists s1,
    load_model E repo s = (Raise e, s1) /\
    moondream3_model s1 = Some m /\
    loaded s1 = loaded s /\
    load_model E (loaded s) s1 =
      (match setup E (history s1) (MoveModel m) with
       | Ok _ => Ok m
       | Raise e' => Raise e'
       end,
       log_event (EvSetup (MoveModel m)) s1).
Proof.
  intros Hs Hload Heval.
  exists (log_event (EvSetup (ModelEval m))
            (set_model (Some m)
               (log_event (EvFromPretrained repo) (set_model None s)))).
  split; [|split; [reflexivity | split; [reflexivity|]]].
  - rewrite load_model_reloads by assumption.
    unfold bind at 1, reload, bind at 1, modify, bind at 1, external at 1.
    cbn [history set_model]. rewrite Hload.
    unfold bind at 1, bind at 1, external at 1.
    cbn [history set_model log_event]. now rewrite Heval.
  - now apply load_model_loaded.
Qed.

(** X3, on a sample: "a" is loaded, the switch to "b" fails in [eval], and
    the next request for "a" is served with the model of "b". *)
Lemma eval_failure_leaves_mismatch_witness :
  let s := snd (load_model Cases.eval_fails (Some "a") initial) in
  let s1 := snd (load_model Cases.eval_fails (Some "b") s) in
  moondream3_model s = Some 1%N /\
  fst (load_model Cases.eval_fails (Some "a") s1) = Ok 2%N /\
  load_calls (snd (load_model Cases.eval_fails (Some "a") s1)) = load_calls s1.
Proof.
  intros s s1.
  destruct (eval_failure_leaves_mismatch Cases.eval_fails (Some "b") s 2%N
              (Exn "RuntimeError" "eval failed"))
    as (s1' & Hrun & Hm & Hl & Hnext).
  - right. discriminate.
  - reflexivity.
  - reflexivity.
  - assert (Hs1 : s1 = s1') by (unfold s1; now rewrite Hrun).
    subst s1'. change (loaded s) with (Some "a") in Hnext.
    split; [reflexivity|]. rewrite Hnext. split; reflexivity.
Defined.

(** ** Who touches the encoding cache *)

Lemma keeps_weaken {A} (R R' : state -> state -> Prop) (m : M A) :
  (forall s s', R s s' -> R' s s') -> keeps R m -> keeps R' m.
Proof. intros HR Hm s r s' H. eapply HR, Hm, H. Qed.

Lemma cache_grows_refl s : cache_grows s s.
Proof. unfold cache_grows. reflexivity. Qed.

Lemma cache_grows_trans s1 s2 s3 :
  cache_grows s1 s2 -> cache_grows s2 s3 -> cache_grows s1 s3.
Proof. unfold cache_grows. intros H1 H2. etrans; eassumption. Qed.

Lemma same_encodings_grows s s' : same_encodings s s' -> cache_grows s s'.
Proof. intros [Hc _]. unfold cache_grows. now rewrite Hc. Qed.

Section CacheUse.

Variable E : Env.

Lemma caption_same_encodings img repo size stream t p mt :
  keeps same_encodings (caption E img repo size stream t p mt).
Proof.
  unfold caption.
  apply keeps_bind; [exact same_encodings_trans
                    | apply load_model_same_encodings | intros m].
  frame_encodings.
Qed.

Lemma point_same_encodings img name repo :
  keeps same_encodings (point E img name repo).
Proof.
  unfold point.
  apply keeps_bind; [exact same_encodings_trans
                    | apply load_model_same_encodings | intros m].
  apply keeps_bind; [exact same_encodings_trans | frame_encodings | intros raw].
  apply keeps_lift; exact same_encodings_refl.
Qed.

Lemma detect_loop_same_encodings name l : forall acc,
  keeps same_encodings (detect_loop E name l acc).
Proof.
  induction l as [|obj l IH]; intros acc; cbn [detect_loop].
  - frame_encodings.
  - apply keeps_bind; [exact same_encodings_trans | | intros; apply IH].
    apply keeps_try; [exact same_encodings_trans | | intros e].
    + apply keeps_bind; [exact same_encodings_trans | | intros; frame_encodings].
      apply keeps_lift; exact same_encodings_refl.
    + unfold display. frame_encodings.
Qed.

Lemma detect_same_encodings img name repo max_objects :
  keeps same_encodings (detect E img name repo max_objects).
Proof.
  unfold detect.
  apply keeps_bind; [exact same_encodings_trans
                    | apply load_model_same_encodings | intros m].
  apply keeps_bind; [exact same_encodings_trans | frame_encodings | intros raw].
  unfold detect_parse.
  destruct raw; try (apply keeps_ret; exact same_encodings_refl).
  destruct (dict_get "objects" d); [|apply keeps_ret; exact same_encodings_refl].
  apply keeps_bind; [exact same_encodings_trans | | intros; apply detect_loop_same_encodings].
  apply keeps_lift; exact same_encodings_refl.
Qed.

Lemma query_uncached_same_encodings img question repo stream t p mt :
  keeps same_encodings (query E img question repo stream t p mt false).
Proof.
  unfold query.
  apply keeps_bind; [exact same_encodings_trans
                    | apply load_model_same_encodings | intros m].
  apply keeps_bind; [exact same_encodings_trans | frame_encodings | intros input].
  apply keeps_bind; [exact same_encodings_trans | frame_encodings | intros response].
  apply keeps_bind; [exact same_encodings_trans | | intros; frame_encodings].
  apply keeps_lift; exact same_encodings_refl.
Qed.

(** [encode_image] only ever adds an entry under a key that had none. *)
Lemma encode_image_grows img cache_key :
  keeps cache_grows (encode_image E img cache_key).
Proof.
  intros s r s' H.
  destruct (cache_hit cache_key s) as [h|] eqn:Hhit.
  - rewrite (encode_hit E img cache_key s h Hhit) in H. inv_pair.
    apply cache_grows_refl.
  - rewrite (encode_miss E img cache_key s Hhit) in H.
    destruct (load_model E (loaded s) s) as [[m|e] s1] eqn:Hload.
    + destruct (load_model_same_encodings E (loaded s) s _ s1 Hload) as [Hc _].
      cbv zeta in H.
      destruct (model_encode_image E (history s1) m img) as [h|e];
        [destruct (key_truthy cache_key) as [k|] eqn:Hk|];
        inv_pair; unfold cache_grows; cbn [image_cache store set_cache log_event];
        rewrite Hc; try reflexivity.
      apply insert_subseteq. unfold cache_hit in Hhit. now rewrite Hk in Hhit.
    + inv_pair.
      destruct (load_model_same_encodings E (loaded s) s _ s' Hload) as [Hc _].
      unfold cache_grows. now rewrite Hc.
Qed.

Lemma query_grows img question repo stream t p mt use_cache :
  keeps cache_grows (query E img question repo stream t p mt use_cache).
Proof.
  destruct use_cache;
    [|eapply keeps_weaken;
      [exact same_encodings_grows | apply query_uncached_same_encodings]].
  unfold query.
  apply keeps_bind; [exact cache_grows_trans | | intros m].
  { eapply keeps_weaken;
      [exact same_encodings_grows | apply load_model_same_encodings]. }
  apply keeps_bind; [exact cache_grows_trans | | intros input].
  { apply keeps_bind; [exact cache_grows_trans | apply encode_image_grows | intros h].
    apply keeps_ret; exact cache_grows_refl. }
  apply keeps_bind; [exact cache_grows_trans | | intros response].
  { apply keeps_external. intros s. unfold cache_grows. cbn. reflexivity. }
  apply keeps_bind; [exact cache_grows_trans | | intros].
  - apply keeps_lift; exact cache_grows_refl.
  - apply keeps_ret; exact cache_grows_refl.
Qed.

(** Outside the query branch, and in it without [use_cache], the dispatch
    neither writes the cache nor calls the encoder. *)
Lemma dispatch_same_encodings mode question img repo stream use_cache kwargs :
  use_cache = false \/ routes_to_query mode = false ->
  keeps same_encodings (dispatch E mode question img repo stream use_cache kwargs).
Proof.
  intros Hside. unfold dispatch, routes_to_query in *.
  destruct (mode_is mode "caption_short").
  { apply keeps_bind; [exact same_encodings_trans
                      | apply caption_same_encodings | intros; frame_encodings]. }
  destruct (mode_is mode "caption_long").
  { apply keeps_bind; [exact same_encodings_trans
                      | apply caption_same_encodings | intros; frame_encodings]. }
  destruct (mode_is mode "caption"), (mode_is mode "caption_normal"); cbn [orb];
    try (apply keeps_bind; [exact same_encodings_trans
                           | apply caption_same_encodings | intros; frame_encodings]).
  destruct (mode_is mode "point").
  { apply keeps_bind; [exact same_encodings_trans
                      | apply point_same_encodings | intros result].
    destruct result as [points|]; [destruct (nonempty points)|]; frame_encodings. }
  destruct (mode_is mode "detect").
  { apply keeps_bind; [exact same_encodings_trans
                      | apply detect_same_encodings | intros results].
    destruct (nonempty results); [|frame_encodings].
    apply keeps_bind; [exact same_encodings_trans | | intros; frame_encodings].
    apply keeps_lift; exact same_encodings_refl. }
  destruct Hside as [-> | Hq]; [|discriminate Hq].
  apply keeps_bind; [exact same_encodings_trans
                    | apply query_uncached_same_encodings | intros; frame_encodings].
Qed.

Lemma dispatch_grows mode question img repo stream use_cache kwargs :
  keeps cache_grows (dispatch E mode question img repo stream use_cache kwargs).
Proof.
  destruct (routes_to_query mode) eqn:Hq.
  - unfold dispatch, routes_to_query in *.
    apply negb_true_iff in Hq. repeat (apply orb_false_iff in Hq; destruct Hq as [Hq ?]).
    repeat match goal with H : mode_is _ _ = false |- _ => rewrite H; clear H end.
    cbn [orb].
    apply keeps_bind; [exact cache_grows_trans | apply query_grows | intros].
    apply keeps_ret; exact cache_grows_refl.
  - eapply keeps_weaken; [exact same_encodings_grows|].
    apply dispatch_same_encodings. now right.
Qed.

End CacheUse.

(** X4.  [load_model] leaves the cache alone, so a handle cached for a
    non-empty key is still returned by [encode_image] after any later load,
    also one that replaced the model by that of another repository. *)
Theorem cached_handle_survives_reload (E : Env) k h repo s r s1 :
  k <> "" ->
  image_cache s !! k = Some h ->
  load_model E repo s = (r, s1) ->
  forall img, encode_image E img (Some k) s1 = (Ok h, s1).
Proof.
  intros Hk Hcached Hload img.
  destruct (load_model_same_encodings E repo s r s1 Hload) as [Hc _].
  apply encode_hit. unfold cache_hit.
  rewrite key_truthy_nonempty by assumption. now rewrite Hc.
Qed.

(** X4, on a sample: an encoding cached while "a" is loaded is returned
    after the switch to "b". *)
Lemma cached_handle_survives_reload_witness :
  let E := Demo.scripted PNone PNone in
  let s := snd (encode_image E Demo.img (Some "k1") initial) in
  let s1 := snd (load_model E (Some "b") s) in
  loaded s = None /\ loaded s1 = Some "b" /\
  encode_image E Demo.img (Some "k1") s1 = (Ok 4%N, s1).
Proof.
  intros E s s1. split; [reflexivity|]. split; [reflexivity|].
  apply (cached_handle_survives_reload E "k1" 4%N (Some "b") s
           (fst (load_model E (Some "b") s)) s1).
  - discriminate.
  - reflexivity.
  - unfold s1. now destruct (load_model E (Some "b") s).
Defined.

(** X5.  Neither [encode_image] nor [predict] removes or replaces an entry
    of the cache: whatever was cached before a call is cached after it,
    under the same handle. *)
Theorem cache_entries_kept (E : Env) k h s :
  image_cache s !! k = Some h ->
  (forall img cache_key,
     image_cache (snd (encode_image E img cache_key s)) !! k = Some h) /\
  (forall question img repo mode stream use_cache kwargs,
     image_cache (snd (predict E question img repo mode stream use_cache kwargs s))
       !! k = Some h).
Proof.
  intros Hcached. split.
  - intros img cache_key.
    destruct (encode_image E img cache_key s) as [r s'] eqn:Hrun.
    pose proof (encode_image_grows E img cache_key s r s' Hrun) as Hgrow.
    eapply lookup_weaken; [exact Hcached | exact Hgrow].
  - intros question img repo mode stream use_cache kwargs.
    rewrite predict_unfold.
    destruct (dispatch E _ _ img repo stream use_cache kwargs s) as [[r|e] s'] eqn:Hrun;
      pose proof (dispatch_grows E _ _ img repo stream use_cache kwargs s _ s' Hrun)
        as Hgrow;
      cbn [snd image_cache log_event];
      (eapply lookup_weaken; [exact Hcached | exact Hgrow]).
Qed.

(** X5, on a sample: a cached query on another question leaves the entry
    "k1" in place. *)
Lemma cache_entries_kept_witness :
  let E := Demo.scripted PNone PNone in
  let s := snd (encode_image E Demo.img (Some "k1") initial) in
  image_cache (snd (predict E "what is this" Demo.img "repo" None false true [] s))
    !! "k1" = Some 4%N.
Proof.
  intros E s.
  destruct (cache_entries_kept E "k1" 4%N s eq_refl) as [_ Hpredict].
  apply Hpredict.
Defined.

(** X6.  [predict] reaches the encoder and the cache only in the query
    branch with [use_cache] set: with [use_cache] off, or in any caption,
    point or detect mode, the cache after the call is the cache before it
    and [model.encode_image] has not been called. *)
Theorem encoder_only_for_cached_queries (E : Env) question img repo mode stream
    use_cache kwargs s r s' :
  use_cache = false \/ routes_to_query (chosen_mode question mode) = false ->
  predict E question img repo mode stream use_cache kwargs s = (r, s') ->
  image_cache s' = image_cache s /\ encode_calls s' = encode_calls s.
Proof.
  intros Hside Hrun. rewrite predict_unfold in Hrun.
  destruct (dispatch E _ _ img repo stream use_cache kwargs s) as [[a|e] s1] eqn:Hd;
    destruct (dispatch_same_encodings E _ _ img repo stream use_cache kwargs
                Hside s _ s1 Hd) as [Hc Hn];
    inv_pair.
  - split; assumption.
  - split; [exact Hc|]. rewrite encode_calls_log. cbn [is_encode]. lia.
Qed.

(** X6, on a sample: a caption request with [use_cache] set leaves the
    cache empty. *)
Lemma encoder_only_for_cached_queries_witness :
  let run := predict (Demo.scripted PNone PNone) "CAPTION" Demo.img "repo" None
               false true [] initial in
  image_cache (snd run) = ∅ /\ encode_calls (snd run) = 0%nat.
Proof.
  intros run.
  apply (encoder_only_for_cached_queries (Demo.scripted PNone PNone)
           "CAPTION" Demo.img "repo" None false true [] initial (fst run) (snd run)).
  - right. reflexivity.
  - unfold run. now destruct (predict _ _ _ _ _ _ _ _ _).
Defined.

(** X7.  A call of [encode_image] that raises, in loading or in encoding,
    stores nothing: the cache is as before. *)
Theorem failed_encoding_not_cached (E : Env) img cache_key s e s' :
  encode_image E img cache_key s = (Raise e, s') ->
  image_cache s' = image_cache s.
Proof.
  intros H.
  destruct (cache_hit cache_key s) as [h|] eqn:Hhit.
  - rewrite (encode_hit E img cache_key s h Hhit) in H. discriminate.
  - rewrite (encode_miss E img cache_key s Hhit) in H.
    destruct (load_model E (loaded s) s) as [[m|e0] s1] eqn:Hload;
      destruct (load_model_same_encodings E (loaded s) s _ s1 Hload) as [Hc _].
    + cbv zeta in H.
      destruct (model_encode_image E (history s1) m img); [discriminate|].
      now inv_pair.
    + now inv_pair.
Qed.

(** X7, on a sample: the encoder fails, the key "k1" stays absent. *)
Lemma failed_encoding_not_cached_witness :
  image_cache (snd (encode_image (Demo.failing Demo.out_of_memory) Demo.img
                      (Some "k1") initial)) = ∅.
Proof.
  apply (failed_encoding_not_cached (Demo.failing Demo.out_of_memory) Demo.img
           (Some "k1") initial Demo.out_of_memory).
  vm_compute. reflexivity.
Defined.

(** ** The cache key of [query] *)

Lemma cache_key_nonempty img question : cache_key_of img question <> "".
Proof.
  unfold cache_key_of. destruct (pretty (image_id img)); discriminate.
Qed.

Lemma append_inv_head (a b c : string) : a ++ b = a ++ c -> b = c.
Proof.
  induction a as [|x a IH]; intros H; [exact H|].
  apply IH. now inversion H.
Qed.

Lemma cache_key_question img question question' :
  cache_key_of img question = cache_key_of img question' -> question = question'.
Proof.
  unfold cache_key_of. intros H.
  apply append_inv_head in H. now inversion H.
Qed.

Section QueryCache.

Variable E : Env.

(** [encode_image] changes the cache at most at its own key. *)
Lemma encode_image_other_keys img cache_key s r s' k :
  encode_image E img cache_key s = (r, s') ->
  cache_key <> Some k ->
  image_cache s' !! k = image_cache s !! k.
Proof.
  intros H Hk.
  destruct (cache_hit cache_key s) as [h|] eqn:Hhit.
  - rewrite (encode_hit E img cache_key s h Hhit) in H. now inv_pair.
  - rewrite (encode_miss E img cache_key s Hhit) in H.
    destruct (load_model E (loaded s) s) as [[m|e0] s1] eqn:Hload;
      destruct (load_model_same_encodings E (loaded s) s _ s1 Hload) as [Hc _];
      [|inv_pair; now rewrite Hc].
    cbv zeta in H.
    destruct (model_encode_image E (history s1) m img);
      [|inv_pair; cbn [image_cache log_event]; now rewrite Hc].
    destruct (key_truthy cache_key) as [k0|] eqn:Hk0; inv_pair;
      cbn [image_cache store set_cache log_event]; rewrite Hc; [|reflexivity].
    apply lookup_insert_ne. intros ->. apply Hk.
    unfold key_truthy in Hk0. destruct cache_key as [c|]; [|discriminate].
    destruct (String.eqb c ""); [discriminate | congruence].
Qed.

(** A run of [query] with [use_cache]: load, encode under the key of the
    image and the question, ask the model with the encoding. *)
Lemma query_cached_run img question repo stream t p mt s :
  query E img question repo stream t p mt true s =
    match load_model E (Some repo) s with
    | (Ok m, s1) =>
        match encode_image E img (Some (cache_key_of img question)) s1 with
        | (Ok h, s2) =>
            let settings := or_none (build_settings E t p mt) in
            (rbind (model_query E (history s2) m (Encoded h) question stream settings)
               (fun response =>
                  rbind (inspect_response stream response) (fun _ => Ok response)),
             log_event (EvQuery m (Encoded h) question stream settings) s2)
        | (Raise e, s2) => (Raise e, s2)
        end
    | (Raise e, s1) => (Raise e, s1)
    end.
Proof.
  unfold query, bind at 1.
  destruct (load_model E (Some repo) s) as [[m|e] s1]; [|reflexivity].
  unfold bind at 1, bind at 1. fold (cache_key_of img question).
  destruct (encode_image E img (Some (cache_key_of img question)) s1)
    as [[h|e] s2]; [|reflexivity].
  unfold ret at 1. unfold bind, external, lift, ret. cbv zeta.
  destruct (model_query _ _ _ _ _ _ _); [|reflexivity].
  cbn [rbind]. destruct (inspect_response stream a); reflexivity.
Qed.

(** What a run of [query] with [use_cache] that returned has done to the
    cache and to the count of encodings. *)
Lemma query_cached_effect img question repo stream t p mt s r s' :
  query E img question repo stream t p mt true s = (Ok r, s') ->
  (exists h, image_cache s' !! cache_key_of img question = Some h) /\
  encode_calls s' =
    (encode_calls s
     + match image_cache s !! cache_key_of img question with
       | Some _ => 0
       | None => 1
       end)%nat /\
  (forall k, k <> cache_key_of img question ->
             image_cache s' !! k = image_cache s !! k).
Proof.
  intros H. rewrite query_cached_run in H.
  destruct (load_model E (Some repo) s) as [[m|e] s1] eqn:Hload; [|discriminate].
  destruct (load_model_same_encodings E (Some repo) s _ s1 Hload) as [Hc Hn].
  destruct (encode_image E img (Some (cache_key_of img question)) s1)
    as [[h|e] s2] eqn:Henc; [|discriminate].
  cbv zeta in H. inversion H as [[Hr Hs']]. clear H Hr.
  assert (Henc' : image_cache s2 !! cache_key_of img question = Some h /\
            encode_calls s2 =
              (encode_calls s1
               + match image_cache s1 !! cache_key_of img question with
                 | Some _ => 0
                 | None => 1
                 end)%nat).
  { destruct (image_cache s1 !! cache_key_of img question) as [h0|] eqn:Hlook.
    - rewrite (encode_hit E img _ s1 h0) in Henc
        by (unfold cache_hit; rewrite key_truthy_nonempty;
            [exact Hlook | apply cache_key_nonempty]).
      inv_pair. split; [assumption | lia].
    - apply (encode_miss_some E img _ s1 h s2);
        [apply cache_key_nonempty | exact Hlook | exact Henc]. }
  destruct Henc' as [Hlook' Hcalls].
  split; [|split].
  - exists h. exact Hlook'.
  - rewrite encode_calls_log. cbn [is_encode]. rewrite Hcalls, Hn, Hc. lia.
  - intros k Hk. cbn [image_cache log_event].
    rewrite (encode_image_other_keys img _ s1 _ s2 k Henc) by congruence.
    now rewrite Hc.
Qed.

End QueryCache.

(** X8.  A [query] with [use_cache] that returned has the encoding of its
    image cached under the key of the image and the question, and has
    called the encoder once, or not at all when that key was cached before.
    Any further [query] with [use_cache] on the same image and question,
    whatever its other arguments, does not call the encoder. *)
Theorem query_encodes_once (E : Env) img question repo stream t p mt s r s1 :
  query E img question repo stream t p mt true s = (Ok r, s1) ->
  (exists h, image_cache s1 !! cache_key_of img question = Some h) /\
  encode_calls s1 =
    (encode_calls s
     + match image_cache s !! cache_key_of img question with
       | Some _ => 0
       | None => 1
       end)%nat /\
  (forall repo' stream' t' p' mt' r2 s2,
     query E img question repo' stream' t' p' mt' true s1 = (r2, s2) ->
     encode_calls s2 = encode_calls s1).
Proof.
  intros Hrun.
  destruct (query_cached_effect E img question repo stream t p mt s r s1 Hrun)
    as ([h Hlook] & Hcalls & _).
  split; [eauto|]. split; [exact Hcalls|].
  intros repo' stream' t' p' mt' r2 s2 Hagain.
  rewrite query_cached_run in Hagain.
  destruct (load_model E (Some repo') s1) as [[m|e] s1'] eqn:Hload;
    destruct (load_model_same_encodings E (Some repo') s1 _ s1' Hload) as [Hc Hn];
    [|now inv_pair].
  rewrite (encode_hit E img _ s1' h) in Hagain
    by (unfold cache_hit; rewrite key_truthy_nonempty;
        [now rewrite Hc | apply cache_key_nonempty]).
  cbv zeta in Hagain. inv_pair.
  rewrite encode_calls_log. cbn [is_encode]. lia.
Qed.

(** X8, on a sample: the same question asked twice, with different sampling
    settings, encodes once. *)
Lemma query_encodes_once_witness :
  let E := Demo.scripted PNone PNone in
  let s1 := snd (query E Demo.img "what is this" "repo" false None None None true
                   initial) in
  encode_calls s1 = 1%nat /\
  encode_calls (snd (query E Demo.img "what is this" "repo" false
                       (Some (PFloat 0.7)) None None true s1)) = 1%nat.
Proof.
  intros E s1.
  destruct (query_encodes_once E Demo.img "what is this" "repo" false
              None None None initial (PStr "an answer") s1 eq_refl)
    as (_ & Hfirst & Hagain).
  split; [exact Hfirst|].
  rewrite (Hagain "repo" false (Some (PFloat 0.7)) None None
             (fst (query E Demo.img "what is this" "repo" false
                     (Some (PFloat 0.7)) None None true s1))
             (snd (query E Demo.img "what is this" "repo" false
                     (Some (PFloat 0.7)) None None true s1)));
    [exact Hfirst|].
  now destruct (query E Demo.img "what is this" "repo" false
                  (Some (PFloat 0.7)) None None true s1).
Defined.

(** X9.  The cache key holds the question: after a [query] with [use_cache]
    on an image, a [query] with [use_cache] on the same image and another
    question, whose key was not cached, does not reuse the encoding and
    calls the encoder again. *)
Theorem other_question_encodes_again (E : Env) img question question'
    repo stream t p mt repo' stream' t' p' mt' s r s1 r' s2 :
  question <> question' ->
  image_cache s !! cache_key_of img question' = None ->
  query E img question repo stream t p mt true s = (Ok r, s1) ->
  query E img question' repo' stream' t' p' mt' true s1 = (Ok r', s2) ->
  encode_calls s2 = S (encode_calls s1).
Proof.
  intros Hq Hnone Hfirst Hsecond.
  destruct (query_cached_effect E img question repo stream t p mt s r s1 Hfirst)
    as (_ & _ & Hother).
  destruct (query_cached_effect E img question' repo' stream' t' p' mt' s1 r' s2
              Hsecond) as (_ & Hcalls & _).
  rewrite Hother in Hcalls.
  - rewrite Hnone in Hcalls. lia.
  - intros Heq. apply Hq. symmetry. now apply (cache_key_question img).
Qed.

(** X9, on a sample: two questions about one image, two encodings. *)
Lemma other_question_encodes_again_witness :
  let E := Demo.scripted PNone PNone in
  let s1 := snd (query E Demo.img "what is this" "repo" false None None None true
                   initial) in
  let s2 := snd (query E Demo.img "who is this" "repo" false None None None true
                   s1) in
  encode_calls s1 = 1%nat /\ encode_calls s2 = 2%nat.
Proof.
  intros E s1 s2. split; [reflexivity|].
  apply (other_question_encodes_again E Demo.img "what is this" "who is this"
           "repo" false None None None "repo" false None None None
           initial (PStr "an answer") s1 (PStr "an answer") s2).
  - discriminate.
  - reflexivity.
  - reflexivity.
  - reflexivity.
Defined.

(** ** The query branch of the dispatcher *)

Section QueryBranch.

Variable E : Env.

Lemma query_uncached_result img question repo stream t p mt s m s1 :
  load_model E (Some repo) s = (Ok m, s1) ->
  fst (query E img question repo stream t p mt false s) =
    rbind (model_query E (history s1) m (RawImage img) question stream
             (or_none (build_settings E t p mt)))
      (fun response =>
         rbind (inspect_response stream response) (fun _ => Ok response)).
Proof.
  intros Hload. unfold query, bind at 1. rewrite Hload.
  unfold bind, ret, external, lift.
  destruct (model_query _ _ _ _ _ _ _); [|reflexivity].
  cbn [rbind]. destruct (inspect_response stream a); reflexivity.
Qed.

Lemma starts_with_shorter cue text :
  (String.length text < String.length cue)%nat -> starts_with cue text = false.
Proof.
  revert text. induction cue as [|c cue IH]; intros [|x text] Hlen;
    cbn in *; try lia; try reflexivity.
  rewrite IH by lia. apply andb_false_r.
Qed.

(** A text shorter than a cue does not contain it. *)
Lemma contains_shorter cue text :
  (String.length text < String.length cue)%nat -> Text.contains cue text = false.
Proof.
  induction text as [|x text IH]; intros Hlen; cbn [Text.contains].
  - rewrite starts_with_shorter by assumption. reflexivity.
  - rewrite starts_with_shorter by assumption.
    rewrite IH by (cbn in Hlen; lia). reflexivity.
Qed.

Lemma lower_length text : String.length (lower text) = String.length text.
Proof. induction text as [|x text IH]; cbn; [reflexivity | now rewrite IH]. Qed.

Lemma eqb_longer a b :
  (String.length a < String.length b)%nat -> String.eqb a b = false.
Proof.
  intros Hlen. apply String.eqb_neq. intros ->. lia.
Qed.

(** A question of fewer than two characters has no cue in it. *)
Lemma short_question_mode question :
  (String.length question < 2)%nat -> auto_mode question = "query".
Proof.
  intros Hlen. unfold auto_mode.
  rewrite !contains_shorter by (rewrite lower_length; cbn; lia).
  rewrite !eqb_longer by (cbn; lia).
  reflexivity.
Qed.

(** In the query branch [predict] is a run of [query] on the effective
    question. *)
Lemma dispatch_query mode question img repo stream use_cache kwargs s :
  routes_to_query mode = true ->
  dispatch E mode question img repo stream use_cache kwargs s =
    match query E img (effective_question question) repo stream
            None None None use_cache s with
    | (Ok r, s') => (Ok (Value r), s')
    | (Raise e, s') => (Raise e, s')
    end.
Proof.
  unfold routes_to_query. intros Hq. apply negb_true_iff in Hq.
  repeat (apply orb_false_iff in Hq; destruct Hq as [Hq ?]).
  unfold dispatch.
  repeat match goal with H : mode_is _ _ = false |- _ => rewrite H; clear H end.
  cbn [orb]. unfold bind, ret. fold (effective_question question).
  destruct (query E img (effective_question question) repo stream
              None None None use_cache s) as [[r|e] s']; reflexivity.
Qed.

End QueryBranch.

(** X10.  A response of the model can be lost in the inspection that
    [query] makes for its trace.  When not streaming, a record response
    whose [reasoning] is not itself a record makes [query] raise
    [AttributeError] although the model has answered.  When streaming, or
    when the response is not a record, has no [reasoning], or has a
    [reasoning] record whose [text] is a string or absent, [query] returns
    the response as the model gave it. *)
Theorem query_inspection (E : Env) img question repo stream t p mt s m s1
    response :
  load_model E (Some repo) s = (Ok m, s1) ->
  model_query E (history s1) m (RawImage img) question stream
    (or_none (build_settings E t p mt)) = Ok response ->
  let outcome := fst (query E img question repo stream t p mt false s) in
  (stream = true -> outcome = Ok response) /\
  ((forall d, response <> PDict d) -> outcome = Ok response) /\
  (forall d, response = PDict d -> dict_get "reasoning" d = None ->
             outcome = Ok response) /\
  (forall d fields,
     response = PDict d -> dict_get "reasoning" d = Some (PDict fields) ->
     (dict_get "text" fields = None \/
      exists text, dict_get "text" fields = Some (PStr text)) ->
     outcome = Ok response) /\
  (forall d v,
     stream = false -> response = PDict d -> dict_get "reasoning" d = Some v ->
     (forall fields, v <> PDict fields) ->
     outcome =
       Raise (Exn "AttributeError"
                ("'" ++ type_name v ++ "' object has no attribute 'get'"))).
Proof.
  intros Hload Hanswer outcome. unfold outcome.
  rewrite (query_uncached_result E img question repo stream t p mt s m s1 Hload).
  rewrite Hanswer. cbn [rbind]. unfold inspect_response.
  split; [|split; [|split; [|split]]].
  - intros ->. reflexivity.
  - intros Hshape. destruct stream; [reflexivity|].
    destruct response; try reflexivity. now destruct (Hshape d).
  - intros d -> Hnone. destruct stream; [reflexivity|]. now rewrite Hnone.
  - intros d fields -> Hreasoning Htext. destruct stream; [reflexivity|].
    rewrite Hreasoning.
    destruct Htext as [-> | [text ->]]; unfold default;
      cbn [from_option id len rbind]; [reflexivity|].
    destruct (100 <? String.length text)%nat; reflexivity.
  - intros d v -> -> Hreasoning Hv. rewrite Hreasoning.
    destruct v; try reflexivity. now destruct (Hv d0).
Qed.

(** X10, on a sample: the model answers with a [reasoning] that is a plain
    string, and [predict] returns an error text instead of the answer. *)
Lemma query_inspection_witness :
  let answer := PDict [("reasoning", PStr "it is a cat"); ("answer", PStr "a cat")] in
  fst (query (Cases.answering answer) Demo.img "what is this" "repo" false
         None None None false initial)
  = Raise (Exn "AttributeError" "'str' object has no attribute 'get'") /\
  fst (predict (Cases.answering answer) "what is this" Demo.img "repo" None
         false false [] initial)
  = Ok (Value (PStr "Error: 'str' object has no attribute 'get'")).
Proof.
  intros answer. split; [|reflexivity].
  destruct (query_inspection (Cases.answering answer) Demo.img "what is this"
              "repo" false None None None initial 1%N
              (snd (load_model (Cases.answering answer) (Some "repo") initial))
              answer eq_refl eq_refl) as (_ & _ & _ & _ & Hbad).
  apply (Hbad [("reasoning", PStr "it is a cat"); ("answer", PStr "a cat")]
           (PStr "it is a cat")); try reflexivity.
  discriminate.
Defined.

(** X11.  A question that is shorter than two characters once cleaned, the
    empty question included, is never classified as a caption, point or
    detect request: without an explicit mode [predict] asks the model the
    question "Describe this image." and returns its answer, or the error
    text of what [query] raised. *)
Theorem short_question_describes (E : Env) question img repo stream use_cache
    kwargs s :
  (String.length (clean_question question) < 2)%nat ->
  predict E question img repo None stream use_cache kwargs s =
    as_response
      (query E img "Describe this image." repo stream None None None use_cache s).
Proof.
  intros Hlen. rewrite predict_unfold. unfold chosen_mode.
  rewrite (short_question_mode _ Hlen).
  rewrite dispatch_query by reflexivity.
  unfold effective_question.
  destruct (String.length (clean_question question) <? 2)%nat eqn:Hlt;
    [|apply Nat.ltb_ge in Hlt; lia].
  unfold as_response.
  destruct (query E img "Describe this image." repo stream None None None
              use_cache s) as [[r|e] s']; reflexivity.
Qed.

(** X11, on a sample: the question "_" is cleaned to a single space. *)
Lemma short_question_describes_witness :
  last (history (snd (predict (Demo.scripted PNone PNone) "_" Demo.img "repo"
                        None false false [] initial)))
  = Some (EvQuery 1%N (RawImage Demo.img) "Describe this image." false None).
Proof.
  rewrite (short_question_describes (Demo.scripted PNone PNone) "_" Demo.img
             "repo" false false [] initial); [reflexivity|].
  apply Nat.ltb_lt. reflexivity.
Defined.

(** X12.  An explicit mode is compared with the names [caption_short],
    [caption_long], [caption], [caption_normal], [point] and [detect] as it
    is written: with any other text, [query] itself and misspelt or
    upper-case names included, [predict] runs a query on the cleaned
    question (or on "Describe this image." when that is shorter than two
    characters), whatever cues the question holds. *)
Theorem unknown_mode_queries (E : Env) question img repo mode stream use_cache
    kwargs s :
  routes_to_query mode = true ->
  predict E question img repo (Some mode) stream use_cache kwargs s =
    as_response
      (query E img (effective_question (clean_question question)) repo stream
         None None None use_cache s).
Proof.
  intros Hq. rewrite predict_unfold. cbn [chosen_mode].
  rewrite dispatch_query by assumption.
  unfold as_response.
  destruct (query E img (effective_question (clean_question question)) repo
              stream None None None use_cache s) as [[r|e] s']; reflexivity.
Qed.

(** X12, on a sample: the mode "Detect" with a capital is not the detect
    mode. *)
Lemma unknown_mode_queries_witness :
  last (history (snd (predict (Demo.scripted PNone PNone) "detect <cars>" Demo.img
                        "repo" (Some "Detect") false false [] initial)))
  = Some (EvQuery 1%N (RawImage Demo.img) "detect cars" false None).
Proof.
  rewrite (unknown_mode_queries (Demo.scripted PNone PNone) "detect <cars>"
             Demo.img "repo" "Detect" false false [] initial); reflexivity.
Defined.

(** ** Cleaned questions and extracted names *)

Section Characters.

Variable P : ascii -> bool.

Lemma all_chars_append a b :
  all_chars P (a ++ b) = all_chars P a && all_chars P b.
Proof.
  induction a as [|c a IH]; [reflexivity|].
  change (P c && all_chars P (a ++ b) = P c && all_chars P a && all_chars P b).
  rewrite IH. apply andb_assoc.
Qed.

Lemma all_chars_lstrip text :
  all_chars P text = true -> all_chars P (lstrip text) = true.
Proof.
  induction text as [|c text IH]; [trivial|].
  cbn [lstrip]. destruct (is_space c); [|trivial].
  cbn [all_chars]. intros H. apply andb_true_iff in H. now apply IH.
Qed.

Lemma all_chars_rstrip text :
  all_chars P text = true -> all_chars P (rstrip text) = true.
Proof.
  induction text as [|c text IH]; [trivial|].
  cbn [all_chars rstrip]. intros H. apply andb_true_iff in H.
  destruct H as [Hc Htext]. specialize (IH Htext).
  destruct (rstrip text) as [|x r].
  - destruct (is_space c); [reflexivity|]. cbn. now rewrite Hc.
  - cbn [all_chars] in *. now rewrite Hc.
Qed.

Lemma all_chars_drop n : forall text,
  all_chars P text = true -> all_chars P (Text.drop n text) = true.
Proof.
  induction n as [|n IH]; intros [|c text] H; cbn [Text.drop]; trivial.
  apply IH. cbn [all_chars] in H. now apply andb_true_iff in H.
Qed.

Lemma all_chars_sub_leading_the text :
  all_chars P text = true -> all_chars P (sub_leading_the text) = true.
Proof.
  intros H. unfold sub_leading_the.
  destruct (starts_with_ci "the" (lstrip text)); [|exact H].
  destruct (Text.drop 3 (lstrip text)) as [|c r] eqn:Hdrop; [exact H|].
  destruct (is_space c); [|exact H].
  apply all_chars_lstrip.
  assert (Hd : all_chars P (Text.drop 3 (lstrip text)) = true)
    by now apply all_chars_drop, all_chars_lstrip.
  rewrite Hdrop in Hd. cbn [all_chars] in Hd. now apply andb_true_iff in Hd.
Qed.

Lemma all_chars_split_and_first text :
  all_chars P text = true -> all_chars P (split_and_first text) = true.
Proof.
  induction text as [|c text IH]; intros H; cbn [split_and_first].
  - now destruct (ws_and_ws_at "").
  - destruct (ws_and_ws_at (String c text)); [reflexivity|].
    cbn [all_chars] in *. apply andb_true_iff in H. destruct H as [Hc H].
    now rewrite Hc, IH.
Qed.

End Characters.

Lemma all_chars_always P text :
  (forall c, P c = true) -> all_chars P text = true.
Proof.
  intros HP. induction text as [|c text IH]; [reflexivity|].
  cbn. now rewrite HP, IH.
Qed.

Lemma all_chars_impl (P Q : ascii -> bool) text :
  (forall c, P c = true -> Q c = true) ->
  all_chars P text = true -> all_chars Q text = true.
Proof.
  intros HPQ. induction text as [|c text IH]; [trivial|].
  cbn [all_chars]. intros H. apply andb_true_iff in H. destruct H as [Hc H].
  now rewrite (HPQ c Hc), IH.
Qed.

(** After [replace], the characters other than [old] are those that were
    there, and those of [new]. *)
Lemma all_chars_replace (Q : ascii -> bool) old new text :
  all_chars Q new = true ->
  all_chars (fun c => Ascii.eqb c old || Q c) text = true ->
  all_chars Q (replace_char old new text) = true.
Proof.
  intros Hnew. induction text as [|c text IH]; [trivial|].
  cbn [all_chars replace_char]. intros H. apply andb_true_iff in H.
  destruct H as [Hc H]. specialize (IH H).
  destruct (Ascii.eqb c old).
  - rewrite all_chars_append. now rewrite Hnew, IH.
  - cbn [orb all_chars] in *. now rewrite Hc, IH.
Qed.

(** A text without [old] is left as it is. *)
Lemma replace_char_absent old new text :
  all_chars (fun c => negb (Ascii.eqb c old)) text = true ->
  replace_char old new text = text.
Proof.
  induction text as [|c text IH]; [trivial|].
  cbn [all_chars replace_char]. intros H. apply andb_true_iff in H.
  destruct H as [Hc H]. apply negb_true_iff in Hc. rewrite Hc.
  now rewrite IH.
Qed.

Lemma clean_question_no_markup question :
  all_chars (fun c => negb (is_markup c)) (clean_question question) = true.
Proof.
  unfold clean_question.
  apply all_chars_replace; [reflexivity|].
  apply all_chars_replace; [reflexivity|].
  apply all_chars_replace; [reflexivity|].
  apply all_chars_always. intros c. unfold is_markup.
  destruct (Ascii.eqb c "<"), (Ascii.eqb c ">"), (Ascii.eqb c "_"); reflexivity.
Qed.

Lemma clean_question_fixed question :
  all_chars (fun c => negb (is_markup c)) question = true ->
  clean_question question = question.
Proof.
  intros H. unfold clean_question.
  rewrite (replace_char_absent "<" "" question).
  - rewrite (replace_char_absent ">" "" question).
    + apply replace_char_absent.
      eapply all_chars_impl; [|exact H]. intros c. unfold is_markup.
      destruct (Ascii.eqb c "<"), (Ascii.eqb c ">"), (Ascii.eqb c "_");
        cbn; congruence.
    + eapply all_chars_impl; [|exact H]. intros c. unfold is_markup.
      destruct (Ascii.eqb c "<"), (Ascii.eqb c ">"), (Ascii.eqb c "_");
        cbn; congruence.
  - eapply all_chars_impl; [|exact H]. intros c. unfold is_markup.
    destruct (Ascii.eqb c "<"), (Ascii.eqb c ">"), (Ascii.eqb c "_");
      cbn; congruence.
Qed.

(** X13.  The cleaned question holds no angle bracket and no underscore;
    a question without them is cleaned to itself, so that cleaning twice is
    cleaning once. *)
Theorem clean_question_markup_free question :
  all_chars (fun c => negb (is_markup c)) (clean_question question) = true /\
  (all_chars (fun c => negb (is_markup c)) question = true ->
   clean_question question = question) /\
  clean_question (clean_question question) = clean_question question.
Proof.
  split; [apply clean_question_no_markup|]. split.
  - apply clean_question_fixed.
  - apply clean_question_fixed, clean_question_no_markup.
Qed.

Lemma lstrip_head text : opt_space (head (lstrip text)) = false.
Proof.
  induction text as [|c text IH]; [reflexivity|].
  cbn [lstrip]. destruct (is_space c) eqn:Hc; [exact IH|].
  cbn. exact Hc.
Qed.

Lemma lstrip_fixed text : opt_space (head text) = false -> lstrip text = text.
Proof.
  destruct text as [|c text]; [reflexivity|].
  cbn. now intros ->.
Qed.

Lemma rstrip_head text :
  opt_space (head text) = false -> opt_space (head (rstrip text)) = false.
Proof.
  destruct text as [|c text]; [reflexivity|].
  cbn [rstrip head opt_space]. intros Hc.
  destruct (rstrip text); [rewrite Hc|]; cbn; exact Hc.
Qed.

Lemma rstrip_rstrip text : rstrip (rstrip text) = rstrip text.
Proof.
  induction text as [|c text IH]; [reflexivity|].
  cbn [rstrip]. destruct (rstrip text) as [|x r] eqn:Hr.
  - destruct (is_space c) eqn:Hc; [reflexivity|].
    cbn [rstrip]. now rewrite Hc.
  - change (rstrip (String c (String x r))) with
      (match rstrip (String x r) with
       | EmptyString => if is_space c then EmptyString else String c EmptyString
       | r' => String c r'
       end).
    now rewrite IH.
Qed.

(** A text stripped on the right stays so when characters are taken from
    its front. *)
Lemma rstrip_fixed_tail c text :
  rstrip (String c text) = String c text -> rstrip text = text.
Proof.
  cbn [rstrip]. destruct (rstrip text) as [|x r].
  - destruct (is_space c); [discriminate|]. now intros [= <-].
  - now intros [= <-].
Qed.

Lemma rstrip_fixed_drop n : forall text,
  rstrip text = text -> rstrip (Text.drop n text) = Text.drop n text.
Proof.
  induction n as [|n IH]; intros [|c text] H; cbn [Text.drop]; trivial.
  apply IH. exact (rstrip_fixed_tail c text H).
Qed.

Lemma rstrip_fixed_lstrip text :
  rstrip text = text -> rstrip (lstrip text) = lstrip text.
Proof.
  induction text as [|c text IH]; [trivial|].
  intros H. cbn [lstrip]. destruct (is_space c); [|exact H].
  apply IH. exact (rstrip_fixed_tail c text H).
Qed.

Lemma strip_sides text :
  lstrip (strip text) = strip text /\ rstrip (strip text) = strip text.
Proof.
  unfold strip. split.
  - apply lstrip_fixed, rstrip_head, lstrip_head.
  - apply rstrip_rstrip.
Qed.

Lemma strip_fixed text :
  lstrip text = text -> rstrip text = text -> strip text = text.
Proof. unfold strip. now intros -> ->. Qed.

Lemma strip_strip text : strip (strip text) = strip text.
Proof. destruct (strip_sides text). now apply strip_fixed. Qed.

Lemma sub_leading_the_stripped text :
  strip text = text -> strip (sub_leading_the text) = sub_leading_the text.
Proof.
  intros H. unfold sub_leading_the.
  destruct (starts_with_ci "the" (lstrip text)); [|exact H].
  destruct (Text.drop 3 (lstrip text)) as [|c r] eqn:Hdrop; [exact H|].
  destruct (is_space c); [|exact H].
  apply strip_fixed.
  - apply lstrip_fixed, lstrip_head.
  - apply rstrip_fixed_lstrip.
    apply (rstrip_fixed_tail c). rewrite <- Hdrop.
    apply rstrip_fixed_drop, rstrip_fixed_lstrip.
    destruct (strip_sides text) as [_ Hr]. now rewrite H in Hr.
Qed.

Lemma sub_punct_free text :
  all_chars (fun c => negb (is_punct c)) (sub_punct text) = true.
Proof.
  induction text as [|c text IH]; [reflexivity|].
  cbn [sub_punct]. destruct (is_punct c) eqn:Hc; [exact IH|].
  cbn [all_chars]. now rewrite Hc, IH.
Qed.

Lemma extract_stripped phrases question :
  strip (extract phrases question) = extract phrases question.
Proof. apply sub_leading_the_stripped, strip_strip. Qed.

Lemma extract_punct_free phrases question :
  all_chars (fun c => negb (is_punct c)) (extract phrases question) = true.
Proof.
  unfold extract, strip.
  apply all_chars_sub_leading_the, all_chars_rstrip, all_chars_lstrip,
    sub_punct_free.
Qed.

(** X14.  The object name sent to the model in point and detect mode has
    no whitespace at either end and none of the characters [?.!,],
    whatever the question. *)
Theorem object_name_trimmed question :
  Forall (fun name =>
            strip name = name /\
            all_chars (fun c => negb (is_punct c)) name = true)
    [point_object_name question; detect_object_name question].
Proof.
  repeat constructor.
  - apply extract_stripped.
  - apply extract_punct_free.
  - unfold detect_object_name.
    destruct (Text.contains " and " (lower (extract detect_phrases question)));
      [apply strip_strip | apply extract_stripped].
  - unfold detect_object_name.
    destruct (Text.contains " and " (lower (extract detect_phrases question)));
      [|apply extract_punct_free].
    unfold strip.
    apply all_chars_rstrip, all_chars_lstrip, all_chars_split_and_first,
      extract_punct_free.
Qed.

(** ** The summaries of point and detect mode *)

Section Summaries.

Variable E : Env.

Lemma point_parse_other raw : other_shape raw -> point_parse E raw = Ok None.
Proof.
  destruct raw; cbn [other_shape point_parse]; trivial.
  - destruct l as [|x [|y [|z l]]]; cbn [length]; trivial. congruence.
  - destruct l as [|x [|y [|z l]]]; cbn [length]; trivial. congruence.
  - now intros ->.
Qed.

(** [point] hands out [None], never an empty list. *)
Lemma point_parse_nonempty raw points :
  point_parse E raw = Ok (Some points) -> nonempty points = true.
Proof.
  unfold point_parse. intros H.
  destruct raw; try discriminate.
  - destruct l as [|x [|y [|]]]; try discriminate.
    step_rbind H. step_rbind H. now inv_pair.
  - destruct l as [|x [|y [|]]]; try discriminate.
    step_rbind H. step_rbind H. now inv_pair.
  - destruct (dict_get "points" d) as [points_list|]; [|discriminate].
    destruct (truthy points_list); [|discriminate].
    step_rbind H. destruct (0 <? a)%nat; [|discriminate].
    step_rbind H. step_rbind H.
    destruct (nonempty a1) eqn:Hne; now inv_pair.
Qed.

Lemma point_nonempty img name repo s points s' :
  point E img name repo s = (Ok (Some points), s') -> nonempty points = true.
Proof.
  unfold point. intros H.
  step_bind; [|discriminate]. step_bind; [|discriminate].
  unfold lift in H. inv_pair. eauto using point_parse_nonempty.
Qed.

Lemma detect_parse_no_objects name raw s :
  no_objects raw -> detect_parse E name raw s = (Ok [], s).
Proof.
  destruct raw; cbn [no_objects detect_parse]; trivial. now intros ->.
Qed.

Lemma detect_entry_form name obj d :
  detect_entry E name obj = Ok (Some d) ->
  label d = name /\ length (bbox d) = 4%nat /\ confidence d = 1%float.
Proof.
  unfold detect_entry. intros H.
  step_rbind H. destruct a; [|discriminate].
  do 4 step_rbind H. inv_pair. repeat split.
Qed.

(** Detections with four components are all formatted. *)
Lemma detect_lines_total results :
  Forall (fun d => length (bbox d) = 4%nat) results ->
  exists lines, detect_lines results = Ok lines /\ length lines = length results.
Proof.
  induction 1 as [|d results Hd _ [lines [IH Hlen]]]; [now exists []|].
  cbn [detect_lines]. unfold detect_line.
  destruct (bbox d) as [|b0 [|b1 [|b2 [|b3 [|]]]]]; try discriminate Hd.
  cbn [item nth_error rbind]. rewrite IH. cbn [rbind].
  eexists. split; [reflexivity|]. cbn [length]. now rewrite Hlen.
Qed.

Lemma dispatch_point question img repo stream use_cache kwargs s :
  dispatch E "point" question img repo stream use_cache kwargs s =
  match point E img (point_object_name question) repo s with
  | (Ok (Some points), s') =>
      (Ok (if nonempty points
           then Annotated (point_text points) (Some (Points points))
           else Annotated "Object not found" None), s')
  | (Ok None, s') => (Ok (Annotated "Object not found" None), s')
  | (Raise e, s') => (Raise e, s')
  end.
Proof.
  unfold dispatch. cbn [mode_is String.eqb Ascii.eqb Bool.eqb orb].
  unfold bind at 1.
  destruct (point E img (point_object_name question) repo s)
    as [[[points|]|e] s']; try reflexivity.
  destruct (nonempty points); reflexivity.
Qed.

Lemma dispatch_detect question img repo stream use_cache kwargs s :
  dispatch E "detect" question img repo stream use_cache kwargs s =
  match detect E img (detect_object_name question) repo
          (default (PInt 10) (dict_get "max_objects" kwargs)) s with
  | (Ok results, s') =>
      if nonempty results
      then (rbind (detect_lines results) (fun lines =>
              Ok (Annotated (String.concat newline lines)
                    (Some (Detections results)))), s')
      else (Ok (Annotated "No objects detected" None), s')
  | (Raise e, s') => (Raise e, s')
  end.
Proof.
  unfold dispatch. cbn [mode_is String.eqb Ascii.eqb Bool.eqb orb].
  unfold bind at 1.
  destruct (detect E img (detect_object_name question) repo _ s)
    as [[results|e] s']; [|reflexivity].
  destruct (nonempty results); [|reflexivity].
  unfold bind, lift, ret.
  destruct (detect_lines results); reflexivity.
Qed.

End Summaries.

(** X15.  A raw result of an unexpected shape is not an error: in point
    mode, a result that is neither a record with [points] nor a pair gives
    "Object not found"; in detect mode, a result that is not a record with
    [objects] gives "No objects detected".  Nothing is reported and no
    further call is made. *)
Theorem unexpected_shape_not_found (E : Env) question img repo mode stream
    use_cache kwargs s m s1 raw :
  load_model E (Some repo) s = (Ok m, s1) ->
  (chosen_mode question mode = "point" ->
   let name := point_object_name (clean_question question) in
   model_point E (history s1) m img name = Ok raw ->
   other_shape raw ->
   predict E question img repo mode stream use_cache kwargs s =
     (Ok (Annotated "Object not found" None),
      log_event (EvPoint m img name) s1)) /\
  (chosen_mode question mode = "detect" ->
   let name := detect_object_name (clean_question question) in
   let settings :=
     detect_settings (default (PInt 10) (dict_get "max_objects" kwargs)) in
   model_detect E (history s1) m img name settings = Ok raw ->
   no_objects raw ->
   predict E question img repo mode stream use_cache kwargs s =
     (Ok (Annotated "No objects detected" None),
      log_event (EvDetect m img name settings) s1)).
Proof.
  intros Hload. split.
  - intros Hmode name Hraw Hshape. subst name.
    rewrite predict_unfold, Hmode, dispatch_point.
    rewrite (point_run E img _ repo s m s1 Hload).
    rewrite Hraw. cbn [rbind].
    now rewrite (point_parse_other E raw Hshape).
  - intros Hmode name settings Hraw Hshape. subst name settings.
    rewrite predict_unfold, Hmode, dispatch_detect.
    rewrite (detect_run E img _ repo _ s m s1 raw Hload Hraw).
    now rewrite (detect_parse_no_objects E _ raw _ Hshape).
Qed.

(** X15, on a sample: the model answers [None] to both requests. *)
Lemma unexpected_shape_not_found_witness :
  fst (predict (Demo.scripted PNone PNone) "where is the cat?" Demo.img "repo"
         None false false [] initial)
  = Ok (Annotated "Object not found" None) /\
  fst (predict (Demo.scripted PNone PNone) "detect cats" Demo.img "repo"
         None false false [] initial)
  = Ok (Annotated "No objects detected" None).
Proof.
  split.
  - destruct (unexpected_shape_not_found (Demo.scripted PNone PNone)
                "where is the cat?" Demo.img "repo" None false false [] initial
                1%N (snd (load_model (Demo.scripted PNone PNone) (Some "repo")
                            initial)) PNone) as [H _];
      [vm_compute; reflexivity|].
    rewrite H; [reflexivity | vm_compute; reflexivity | reflexivity | exact I].
  - destruct (unexpected_shape_not_found (Demo.scripted PNone PNone)
                "detect cats" Demo.img "repo" None false false [] initial
                1%N (snd (load_model (Demo.scripted PNone PNone) (Some "repo")
                            initial)) PNone) as [_ H];
      [vm_compute; reflexivity|].
    rewrite H; [reflexivity | vm_compute; reflexivity | reflexivity | exact I].
Defined.

(** X16.  In detect mode the summary cannot fail: every detection that
    [detect] returns carries the queried name, four coordinates and
    confidence 1.0, so a non-empty result gives one line per detection
    together with exactly these detections, an empty one gives
    "No objects detected", and an exception of [detect] gives its error
    text. *)
Theorem detect_summary (E : Env) question img repo mode stream use_cache
    kwargs s :
  chosen_mode question mode = "detect" ->
  let name := detect_object_name (clean_question question) in
  let run :=
    detect E img name repo (default (PInt 10) (dict_get "max_objects" kwargs)) s in
  let answer := predict E question img repo mode stream use_cache kwargs s in
  (forall results s',
     run = (Ok results, s') ->
     Forall (fun d => label d = name /\ length (bbox d) = 4%nat /\
                      confidence d = 1%float) results /\
     if nonempty results
     then exists lines,
            answer = (Ok (Annotated (String.concat newline lines)
                            (Some (Detections results))), s') /\
            length lines = length results
     else answer = (Ok (Annotated "No objects detected" None), s')) /\
  (forall e s',
     run = (Raise e, s') ->
     answer = (Ok (error_text e), log_event (EvDisplay e "Moondream3") s')).
Proof.
  intros Hmode name run answer.
  assert (Hanswer : answer =
            match dispatch E "detect" (clean_question question) img repo stream
                    use_cache kwargs s with
            | (Ok r, s') => (Ok r, s')
            | (Raise e, s') =>
                (Ok (error_text e), log_event (EvDisplay e "Moondream3") s')
            end).
  { unfold answer. now rewrite predict_unfold, Hmode. }
  rewrite dispatch_detect in Hanswer. fold name in Hanswer. fold run in Hanswer.
  split.
  - intros results s' Hrun. rewrite Hrun in Hanswer.
    assert (Hform : Forall (fun d => label d = name /\ length (bbox d) = 4%nat /\
                                     confidence d = 1%float) results).
    { eapply detect_all; [|exact Hrun].
      intros obj d Hd. exact (detect_entry_form E name obj d Hd). }
    split; [exact Hform|].
    destruct (nonempty results); [|exact Hanswer].
    destruct (detect_lines_total results) as [lines [Hlines Hlen]].
    { eapply Forall_impl; [exact Hform|]. now intros d (_ & H4 & _). }
    exists lines. rewrite Hlines in Hanswer. split; [exact Hanswer | exact Hlen].
  - intros e s' Hrun. now rewrite Hrun in Hanswer.
Qed.

(** X16, on a sample: one complete box and one partial entry give one
    line. *)
Lemma detect_summary_witness :
  exists line,
    fst (predict (Demo.scripted PNone Demo.one_box_one_partial) "detect cats"
           Demo.img "repo" None false false [] initial)
    = Ok (Annotated line
            (Some (Detections
                     [Detection "cats" [0.0; 0.0; 0.5; 0.5]%float 1.0%float]))).
Proof.
  destruct (detect_summary (Demo.scripted PNone Demo.one_box_one_partial)
              "detect cats" Demo.img "repo" None false false [] initial)
    as [H _]; [vm_compute; reflexivity|].
  destruct (H [Detection "cats" [0.0; 0.0; 0.5; 0.5]%float 1.0%float]
              (snd (detect (Demo.scripted PNone Demo.one_box_one_partial)
                      Demo.img "cats" "repo" (PInt 10) initial)))
    as [_ [lines [Hp Hlen]]]; [vm_compute; reflexivity|].
  destruct lines as [|line [|]]; try discriminate Hlen.
  exists line. rewrite Hp. reflexivity.
Defined.

(** X17.  [point] never returns an empty list: it returns [None] or at
    least one point.  So in point mode a returned list is always shown with
    its points, and "Object not found" stands for [None] only; an exception
    of [point] gives its error text. *)
Theorem point_summary (E : Env) question img repo mode stream use_cache
    kwargs s :
  chosen_mode question mode = "point" ->
  let name := point_object_name (clean_question question) in
  let run := point E img name repo s in
  let answer := predict E question img repo mode stream use_cache kwargs s in
  (forall points s',
     run = (Ok (Some points), s') ->
     points <> [] /\
     answer = (Ok (Annotated (point_text points) (Some (Points points))), s')) /\
  (forall s',
     run = (Ok None, s') ->
     answer = (Ok (Annotated "Object not found" None), s')) /\
  (forall e s',
     run = (Raise e, s') ->
     answer = (Ok (error_text e), log_event (EvDisplay e "Moondream3") s')).
Proof.
  intros Hmode name run answer.
  assert (Hanswer : answer =
            match dispatch E "point" (clean_question question) img repo stream
                    use_cache kwargs s with
            | (Ok r, s') => (Ok r, s')
            | (Raise e, s') =>
                (Ok (error_text e), log_event (EvDisplay e "Moondream3") s')
            end).
  { unfold answer. now rewrite predict_unfold, Hmode. }
  rewrite dispatch_point in Hanswer. fold name in Hanswer. fold run in Hanswer.
  repeat split.
  - intros ->. apply point_nonempty in H. discriminate H.
  - rewrite H in Hanswer. apply point_nonempty in H. now rewrite H in Hanswer.
  - intros s' Hrun. now rewrite Hrun in Hanswer.
  - intros e s' Hrun. now rewrite Hrun in Hanswer.
Qed.

(** X17, on a sample: two points, the first one clamped. *)
Lemma point_summary_witness :
  let points := [(1.0, 0.0); (0.5, 0.6)]%float in
  fst (predict (Demo.scripted Demo.two_points PNone) "where is the cat?"
         Demo.img "repo" None false false [] initial)
  = Ok (Annotated (point_text points) (Some (Points points))).
Proof.
  intros points.
  destruct (point_summary (Demo.scripted Demo.two_points PNone)
              "where is the cat?" Demo.img "repo" None false false [] initial)
    as [H _]; [vm_compute; reflexivity|].
  destruct (H points
              (snd (point (Demo.scripted Demo.two_points PNone) Demo.img "cat"
                      "repo" initial)))
    as [_ Hp]; [vm_compute; reflexivity|].
  rewrite Hp. reflexivity.
Defined.

(** ** How often the model is loaded *)

Lemma steady_refl s : steady s s.
Proof. intros _. repeat split. Qed.

Lemma steady_trans s1 s2 s3 : steady s1 s2 -> steady s2 s3 -> steady s1 s3.
Proof.
  intros H12 H23 Hm. destruct (H12 Hm) as (Hc & Hm2 & Hl).
  destruct H23 as (Hc' & Hm3 & Hl'); [now rewrite Hm2|].
  repeat split; congruence.
Qed.

Lemma steady_log ev s : is_load ev = false -> steady s (log_event ev s).
Proof.
  intros Hev _. rewrite load_calls_log, Hev. repeat split. cbn. lia.
Qed.

Ltac frame_steady :=
  repeat first
    [ apply keeps_ret; exact steady_refl
    | apply keeps_lift; exact steady_refl
    | apply keeps_get; exact steady_refl
    | apply keeps_external; intros; apply steady_log; reflexivity
    | apply keeps_bind; [exact steady_trans | | intros] ].

Section LoadCount.

Variable E : Env.

Lemma ready_dec repo s : ready repo s \/ ~ ready repo s.
Proof.
  unfold ready. destruct (moondream3_model s) as [m|].
  - destruct (decide (loaded s = Some repo)) as [Hl|Hl].
    + left. split; [discriminate | exact Hl].
    + right. now intros [_ Hl'].
  - right. now intros [Hm _].
Qed.

Lemma load_model_counted repo s r s1 :
  load_model E (Some repo) s = (r, s1) -> counted repo s s1.
Proof.
  intros H. split.
  - intros [Hm Hl]. destruct (moondream3_model s) as [m|] eqn:Hm'; [|easy].
    rewrite (load_model_loaded E (Some repo) s m Hm' Hl) in H. inv_pair.
    rewrite load_calls_log. cbn. lia.
  - intros Hnot. eapply load_model_reload_calls; [|exact H].
    destruct (moondream3_model s) as [m|] eqn:Hm'; [|now left].
    right. intros Hl. apply Hnot. split; [rewrite Hm'; discriminate | exact Hl].
Qed.

(** With a model in place, [encode_image] does not load: it asks for the
    repository that is loaded. *)
Lemma encode_image_steady img cache_key :
  keeps steady (encode_image E img cache_key).
Proof.
  intros s r s' H Hm.
  destruct (cache_hit cache_key s) as [h|] eqn:Hhit.
  - rewrite (encode_hit E img cache_key s h Hhit) in H. inv_pair.
    repeat split.
  - rewrite (encode_miss E img cache_key s Hhit) in H.
    destruct (moondream3_model s) as [m|] eqn:Hm'; [|easy].
    rewrite (load_model_loaded E (loaded s) s m Hm' eq_refl) in H.
    destruct (setup E (history s) (MoveModel m)); [|inv_pair].
    + cbv zeta in H.
      destruct (model_encode_image E _ m img);
        [destruct (key_truthy cache_key)|]; inv_pair;
        (split; [|split; [exact Hm' | reflexivity]]);
        try change (load_calls (store ?k ?h ?s0)) with (load_calls s0);
        rewrite !load_calls_log; cbn [is_load]; lia.
    + split; [|split; [exact Hm' | reflexivity]].
      rewrite load_calls_log. cbn. lia.
Qed.

Lemma detect_loop_steady name l : forall acc,
  keeps steady (detect_loop E name l acc).
Proof.
  induction l as [|obj l IH]; intros acc; cbn [detect_loop].
  - frame_steady.
  - apply keeps_bind; [exact steady_trans | | intros; apply IH].
    apply keeps_try; [exact steady_trans | frame_steady | intros e].
    unfold display. frame_steady.
Qed.

(** An invoker is [load_model] followed by steps that do not load. *)
Lemma after_load {A} repo (rest : model -> M A) s r s' :
  (forall m, keeps steady (rest m)) ->
  bind (load_model E (Some repo)) rest s = (r, s') -> counted repo s s'.
Proof.
  intros Hrest H. unfold bind in H.
  destruct (load_model E (Some repo) s) as [[m|e] s1] eqn:Hload.
  - pose proof (load_model_counted repo s _ s1 Hload) as [Hready Hnot].
    destruct (load_model_ok E (Some repo) s m s1 Hload) as [Hm _].
    destruct (Hrest m s1 r s' H) as (Hc & _); [now rewrite Hm|].
    split; intros Hs; rewrite Hc; auto.
  - inv_pair. exact (load_model_counted repo s _ s' Hload).
Qed.

Lemma caption_counted img repo size stream t p mt s r s' :
  caption E img repo size stream t p mt s = (r, s') -> counted repo s s'.
Proof. apply after_load. intros m. frame_steady. Qed.

Lemma point_counted img name repo s r s' :
  point E img name repo s = (r, s') -> counted repo s s'.
Proof. apply after_load. intros m. frame_steady. Qed.

Lemma detect_counted img name repo max_objects s r s' :
  detect E img name repo max_objects s = (r, s') -> counted repo s s'.
Proof.
  apply after_load. intros m. cbv zeta.
  apply keeps_bind; [exact steady_trans | frame_steady | intros raw].
  unfold detect_parse.
  destruct raw; try (apply keeps_ret; exact steady_refl).
  destruct (dict_get "objects" d); [|apply keeps_ret; exact steady_refl].
  apply keeps_bind; [exact steady_trans | | intros; apply detect_loop_steady].
  apply keeps_lift; exact steady_refl.
Qed.

Lemma query_counted img question repo stream t p mt use_cache s r s' :
  query E img question repo stream t p mt use_cache s = (r, s') ->
  counted repo s s'.
Proof.
  apply after_load. intros m. cbv zeta.
  apply keeps_bind; [exact steady_trans | | intros input; frame_steady].
  destruct use_cache; [|frame_steady].
  apply keeps_bind; [exact steady_trans | apply encode_image_steady | intros].
  frame_steady.
Qed.

(** Steps after the invoker that leave the state alone. *)
Lemma counted_bind {A B} repo (m : M A) (k : A -> M B) s r s' :
  (forall s r s', m s = (r, s') -> counted repo s s') ->
  (forall a s, snd (k a s) = s) ->
  bind m k s = (r, s') -> counted repo s s'.
Proof.
  intros Hm Hk H. unfold bind in H.
  destruct (m s) as [[a|e] s1] eqn:Hrun.
  - specialize (Hk a s1). rewrite H in Hk. cbn in Hk. subst s'. eauto.
  - inv_pair. eauto.
Qed.

Lemma dispatch_counted mode question img repo stream use_cache kwargs s r s' :
  dispatch E mode question img repo stream use_cache kwargs s = (r, s') ->
  counted repo s s'.
Proof.
  unfold dispatch.
  destruct (mode_is mode "caption_short").
  { apply counted_bind; [intros *; apply caption_counted | reflexivity]. }
  destruct (mode_is mode "caption_long").
  { apply counted_bind; [intros *; apply caption_counted | reflexivity]. }
  destruct (mode_is mode "caption" || mode_is mode "caption_normal").
  { apply counted_bind; [intros *; apply caption_counted | reflexivity]. }
  destruct (mode_is mode "point").
  { apply counted_bind; [intros *; apply point_counted|].
    intros [points|] s0; [destruct (nonempty points)|]; reflexivity. }
  destruct (mode_is mode "detect").
  { apply counted_bind; [intros *; apply detect_counted|].
    intros results s0. destruct (nonempty results); [|reflexivity].
    unfold bind, lift, ret. now destruct (detect_lines results). }
  apply counted_bind; [intros *; apply query_counted | reflexivity].
Qed.

End LoadCount.

(** X18.  A call of [predict] loads the model at most once: not at all when
    a model is in place for the repository, exactly once otherwise, in every
    mode, with or without the encoding cache, and whether the call ends with
    an answer or with an error text. *)
Theorem predict_loads_once (E : Env) question img repo mode stream use_cache
    kwargs s :
  let s' := snd (predict E question img repo mode stream use_cache kwargs s) in
  (ready repo s -> load_calls s' = load_calls s) /\
  (~ ready repo s -> load_calls s' = S (load_calls s)).
Proof.
  cbv zeta. rewrite predict_unfold.
  destruct (dispatch E (chosen_mode question mode) (clean_question question)
              img repo stream use_cache kwargs s) as [[r|e] s1] eqn:Hrun;
    apply dispatch_counted in Hrun; cbn [snd]; [exact Hrun|].
  rewrite load_calls_log. cbn [is_load]. destruct Hrun as [Hready Hnot].
  split; intros Hs; [rewrite <- (Hready Hs) | rewrite <- (Hnot Hs)]; lia.
Qed.

(** X18, on a sample: two cached queries in a row load once. *)
Lemma predict_loads_once_witness :
  let E := Demo.scripted PNone PNone in
  let s1 := snd (predict E "what is this?" Demo.img "repo" None false true []
                   initial) in
  let s2 := snd (predict E "what is this?" Demo.img "repo" None false true []
                   s1) in
  load_calls s1 = 1%nat /\ load_calls s2 = 1%nat.
Proof.
  intros E s1 s2. split.
  - destruct (predict_loads_once E "what is this?" Demo.img "repo" None false
                true [] initial) as [_ Hnot].
    apply Hnot. intros [Hm _]. now apply Hm.
  - destruct (predict_loads_once E "what is this?" Demo.img "repo" None false
                true [] s1) as [Hready _].
    fold s2 in Hready. rewrite Hready; [reflexivity|].
    split; [vm_compute; discriminate | reflexivity].
Defined.

(** ** Encoding without a model *)

Lemma reload_history (E : Env) repo s r s1 :
  reload E repo s = (r, s1) ->
  exists tail, history s1 = (history s ++ EvFromPretrained repo :: tail)%list.
Proof.
  intros H. run_calls H;
    cbn [history log_event set_model set_loaded];
    repeat rewrite <- app_assoc; cbn [app]; eexists; reflexivity.
Qed.

(** X19.  [encode_image] loads the repository recorded in [loaded], not one
    it is given: past the cache and without a model in place, its first
    step is [from_pretrained] on [loaded], which is [None] in the initial
    state of the module. *)
Theorem encode_without_model (E : Env) img cache_key s :
  moondream3_model s = None ->
  cache_hit cache_key s = None ->
  exists tail,
    history (snd (encode_image E img cache_key s)) =
    (history s ++ EvFromPretrained (loaded s) :: tail)%list.
Proof.
  intros Hm Hmiss.
  destruct (encode_image E img cache_key s) as [r s'] eqn:Hrun. cbn [snd].
  rewrite (encode_miss E img cache_key s Hmiss) in Hrun.
  rewrite load_model_reloads in Hrun by now left.
  unfold bind at 1 in Hrun.
  destruct (reload E (loaded s) s) as [[m|e] s0] eqn:Hr;
    apply reload_history in Hr as [tail Htail].
  - unfold bind, external, ret in Hrun.
    destruct (setup E (history s0) (MoveModel m)).
    + cbv zeta in Hrun.
      destruct (model_encode_image E _ m img);
        [destruct (key_truthy cache_key)|]; inv_pair;
        cbn [history log_event store set_cache];
        rewrite Htail; repeat rewrite <- app_assoc; cbn [app];
        eexists; reflexivity.
    + inv_pair. cbn [history log_event].
      rewrite Htail; repeat rewrite <- app_assoc; cbn [app];
        eexists; reflexivity.
  - inv_pair. now exists tail.
Qed.

(** X19, on a sample: in the initial state the encoder asks for the
    repository [None]. *)
Lemma encode_without_model_witness :
  exists tail,
    history (snd (encode_image (Demo.scripted PNone PNone) Demo.img None initial))
    = EvFromPretrained None :: tail.
Proof.
  destruct (encode_without_model (Demo.scripted PNone PNone) Demo.img None
              initial eq_refl eq_refl) as [tail Htail].
  exists tail. exact Htail.
Defined.

(** ** Keyword arguments of the dispatcher *)

(** X20.  Of its keyword arguments [predict] reads [max_objects] only, and
    only in detect mode: two calls whose keyword arguments agree on
    [max_objects] do the same, and outside detect mode the keyword
    arguments play no part at all (a [temperature] given to [predict]
    never reaches the model). *)
Theorem only_max_objects_is_read (E : Env) question img repo mode stream
    use_cache kwargs kwargs' s :
  (dict_get "max_objects" kwargs = dict_get "max_objects" kwargs' ->
   predict E question img repo mode stream use_cache kwargs s =
   predict E question img repo mode stream use_cache kwargs' s) /\
  (chosen_mode question mode <> "detect" ->
   predict E question img repo mode stream use_cache kwargs s =
   predict E question img repo mode stream use_cache kwargs' s).
Proof.
  split; intros H; rewrite !predict_unfold; unfold dispatch.
  - now rewrite H.
  - destruct (mode_is (chosen_mode question mode) "detect") eqn:Hd;
      [|reflexivity].
    apply String.eqb_eq in Hd. contradiction.
Qed.
